(** * Ini: a line-oriented INI reader and in-place rewriter (ini.hpp)

    A shallow embedding of [class Ini] of [src/ini.hpp] and the
    verification of its read path ([try_get_field], [read_*]) and of its
    write path ([set_field], [write_*]).

    - A [std::string] is a [list ascii] (a sequence of bytes).
    - The file system maps a path to the content of the file there, if any;
      the member functions that touch it run in a small state monad [IO].
    - The [while (!iss.eof() && !iss.fail())] loops with their early
      [return false] are a fold over the lines [std::getline] delivers,
      with a result that is either "continue with this state" or
      "return this value".
    - [double] and its two conversions belong to the C++ library and are
      parameters of the members that use them. *)

From Stdlib Require Import List Ascii String Bool Arith ZArith Lia.
Import ListNotations.

Local Open Scope list_scope.

(** ** Strings *)

Module Str.

Definition str := list ascii.

(** A literal of the source, as a byte sequence. *)
Definition lit (s : string) : str := list_ascii_of_string s.

Definition NUL : ascii := Ascii.zero.
Definition LF : ascii := ascii_of_nat 10.

(** [a == b] on [std::string]. *)
Fixpoint eqb (a b : str) : bool :=
  match a, b with
  | [], [] => true
  | x :: a', y :: b' => Ascii.eqb x y && eqb a' b'
  | _, _ => false
  end.

(** [s.c_str()] read back as a C string: the bytes before the first NUL. *)
Fixpoint c_str (s : str) : str :=
  match s with
  | [] => []
  | c :: s' => if Ascii.eqb c NUL then [] else c :: c_str s'
  end.

(** [s.find(c)]: index of the first occurrence of the character [c]. *)
Fixpoint find_char (s : str) (c : ascii) : option nat :=
  match s with
  | [] => None
  | x :: s' => if Ascii.eqb x c then Some 0 else option_map S (find_char s' c)
  end.

(** Does [s] begin with [p]? *)
Fixpoint starts_with (p s : str) : bool :=
  match p, s with
  | [], _ => true
  | _ :: _, [] => false
  | x :: p', y :: s' => Ascii.eqb x y && starts_with p' s'
  end.

(** [s.find(p)]: index of the first occurrence of the substring [p]. *)
Fixpoint find (s p : str) : option nat :=
  if starts_with p s then Some 0
  else match s with
       | [] => None
       | _ :: s' => option_map S (find s' p)
       end.

(** [s.substr(pos, n)] for [pos <= s.size()]. *)
Definition substr (s : str) (pos n : nat) : str := firstn n (skipn pos s).

(** [s.substr(pos)], i.e. [s.substr(pos, npos)]. *)
Definition substr_from (s : str) (pos : nat) : str := skipn pos s.

(** The characters of [" \t\n\r\f\v"]. *)
Definition is_whitespace (c : ascii) : bool :=
  let n := nat_of_ascii c in
  (n =? 32) || (n =? 9) || (n =? 10) || (n =? 13) || (n =? 12) || (n =? 11).

(** [s.find_first_not_of(whitespaces)]. *)
Fixpoint find_first_not_of (s : str) : option nat :=
  match s with
  | [] => None
  | c :: s' => if is_whitespace c then option_map S (find_first_not_of s')
               else Some 0
  end.

(** [s.find_last_not_of(whitespaces)]. *)
Fixpoint find_last_not_of (s : str) : option nat :=
  match s with
  | [] => None
  | c :: s' => match find_last_not_of s' with
               | Some p => Some (S p)
               | None => if is_whitespace c then None else Some 0
               end
  end.

(** [Ini::trim]: clear a string of whitespace only; otherwise erase what
    follows the last non-whitespace character, then what precedes the
    first one. *)
Definition trim (s : str) : str :=
  match find_last_not_of s with
  | None => []
  | Some last =>
      let s1 := firstn (last + 1) s in
      match find_first_not_of s1 with
      | Some first => skipn first s1
      | None => []   (* [erase(0, npos)]; not reached, [s1] ends in a non-blank *)
      end
  end.

(** [::toupper] in the "C" locale, on every character. *)
Definition toupper (c : ascii) : ascii :=
  let n := nat_of_ascii c in
  if (97 <=? n) && (n <=? 122) then ascii_of_nat (n - 32) else c.

Definition upcase (s : str) : str := map toupper s.

(** The lines a text is cut into by successive [std::getline(iss, line, '\n')]
    calls: every ['\n'] ends a line, and what follows the last one (possibly
    nothing) is a line of its own. *)
Fixpoint split_lines (s : str) : list str :=
  match s with
  | [] => [[]]
  | c :: s' =>
      if Ascii.eqb c LF then [] :: split_lines s'
      else match split_lines s' with
           | l :: ls => (c :: l) :: ls
           | [] => [[c]]
           end
  end.

(** The lines read by the loop
    [while (!iss.eof() && !iss.fail()) { std::getline(iss, line, '\n'); ... }]
    after [iss << ifs.rdbuf()].  Inserting a stream buffer that yields no
    character sets [failbit] on [iss], so an empty (or missing) file gives no
    iteration at all.  Otherwise a [getline] that stops at ['\n'] leaves the
    stream good, and the one that runs into the end of the text sets
    [eofbit] after delivering its (possibly empty) line. *)
Definition getlines (text : str) : list str :=
  match text with
  | [] => []
  | _ :: _ => split_lines text
  end.

(** What [oss << l1 << '\n' << l2 << '\n' ...] accumulates. *)
Fixpoint emit_lines (ls : list str) : str :=
  match ls with
  | [] => []
  | l :: ls' => l ++ LF :: emit_lines ls'
  end.

(** [result.pop_back()]. *)
Definition pop_back (s : str) : str := removelast s.

End Str.
Import Str.

(** ** The file system and the I/O monad *)

(** What the member functions can observe of the disk: the content of each
    existing file, and whether a path can be opened for writing. *)
Record file_system : Type := FileSystem {
  file_content : str -> option str;
  can_open_for_writing : str -> bool
}.

Definition IO (A : Type) : Type := file_system -> A * file_system.

Definition ret {A} (a : A) : IO A := fun fs => (a, fs).

Definition bind {A B} (m : IO A) (k : A -> IO B) : IO B :=
  fun fs => let (a, fs') := m fs in k a fs'.

Notation "x <- m ;; k" := (bind m (fun x => k))
  (at level 61, m at next level, right associativity).

(** [std::ifstream ifs(path); iss << ifs.rdbuf();]: the whole text of the
    file, and no character when the file cannot be opened. *)
Definition slurp (path : str) : IO str :=
  fun fs => (match file_content fs path with Some t => t | None => [] end, fs).

Definition overwrite (path data : str) (fs : file_system) : file_system :=
  {| file_content := fun p => if Str.eqb p path then Some data
                              else file_content fs p;
     can_open_for_writing := can_open_for_writing fs |}.

(** [std::ofstream ofs(path); if (ofs.is_open()) ofs << data; else return false;
    return true;] *)
Definition spit (path data : str) : IO bool :=
  fun fs => if can_open_for_writing fs path
            then (true, overwrite path data fs)
            else (false, fs).

(** ** Loops with early return *)

Inductive flow (S R : Type) : Type :=
| Continue (s : S)
| Return (r : R).
Arguments Continue {S R} s.
Arguments Return {S R} r.

(** One iteration of [body] per line, until a line makes it return. *)
Fixpoint for_lines {S R} (body : S -> str -> flow S R) (st : S)
    (lines : list str) : flow S R :=
  match lines with
  | [] => Continue st
  | l :: ls => match body st l with
               | Continue st' => for_lines body st' ls
               | Return r => Return r
               end
  end.

(** ** class Ini *)

Record Ini : Type := MkIni {
  file_path_ : str;
  field_separator_ : ascii;
  comment_prefix_list_ : list str
}.

(** [Ini(const std::string &file_path)] *)
Definition Ini_new (file_path : str) : Ini :=
  {| file_path_ := c_str file_path;
     field_separator_ := "="%char;
     comment_prefix_list_ := [lit "#"; lit ";"] |}.

Definition set_field_separator (ini : Ini) (field_separator : ascii) : Ini :=
  {| file_path_ := file_path_ ini;
     field_separator_ := field_separator;
     comment_prefix_list_ := comment_prefix_list_ ini |}.

Definition set_comment_prefix_list (ini : Ini) (l : list str) : Ini :=
  {| file_path_ := file_path_ ini;
     field_separator_ := field_separator_ ini;
     comment_prefix_list_ := l |}.

(** [Ini::is_ignore_line] *)
Definition is_ignore_line (ini : Ini) (line : str) : bool :=
  match line with
  | [] => true
  | _ :: _ =>
      existsb (fun prefix => match find line prefix with
                             | Some 0 => true
                             | _ => false
                             end) (comment_prefix_list_ ini)
  end.

(** [line[0] == '['] *)
Definition starts_with_bracket (line : str) : bool :=
  match line with
  | c :: _ => Ascii.eqb c "["%char
  | [] => false
  end.

(** *** The read path *)

(** The body of the loop of [Ini::try_get_field].  The state is
    [current_section]; [Return None] is [return false], and [Return (Some v)]
    is [value = v; return true]. *)
Definition try_get_field_body (ini : Ini) (target_section target_field : str)
    (current_section : str) (raw : str) : flow str (option str) :=
  let line := trim raw in
  if is_ignore_line ini line then Continue current_section
  else if starts_with_bracket line then
    match find line (lit "]") with
    | None => Return None
    | Some pos =>
        if pos =? 1 then Return None
        else Continue (substr line 1 (pos - 1))
    end
  else
    if Str.eqb current_section [] then Return None
    else
      match find_char line (field_separator_ ini) with
      | None => Return None
      | Some pos =>
          let current_field := trim (substr line 0 pos) in
          let current_value := trim (substr_from line (pos + 1)) in
          if Str.eqb current_section target_section
             && Str.eqb current_field target_field
          then Return (match current_value with
                       | [] => None
                       | _ :: _ => Some current_value
                       end)
          else Continue current_section
      end.

(** The lookup on a text already loaded. *)
Definition lookup (ini : Ini) (target_section target_field : str)
    (text : str) : option str :=
  match for_lines (try_get_field_body ini target_section target_field) []
          (getlines text) with
  | Continue _ => None
  | Return r => r
  end.

(** [Ini::try_get_field]; [None] is [false], [Some v] is [true] with
    [value = v]. *)
Definition try_get_field (ini : Ini) (target_section target_field : str)
  : IO (option str) :=
  text <- slurp (file_path_ ini) ;;
  ret (lookup ini target_section target_field text).

(** *** The write path *)

Inductive FoundMode : Type := NO_MATCH | SECTION_MATCH | BOTH_MATCH.

Definition FoundMode_eqb (a b : FoundMode) : bool :=
  match a, b with
  | NO_MATCH, NO_MATCH | SECTION_MATCH, SECTION_MATCH
  | BOTH_MATCH, BOTH_MATCH => true
  | _, _ => false
  end.

(** The locals of [Ini::set_field] that live across iterations. *)
Record rewrite_state : Type := RewriteState {
  found_mode : FoundMode;
  current_section : str;
  oss : str
}.

(** [target_field + field_separator_ + value] *)
Definition assignment (ini : Ini) (target_field value : str) : str :=
  target_field ++ field_separator_ ini :: value.

(** The body of the loop of [Ini::set_field]; [Return false] is
    [return false]. *)
Definition set_field_body (ini : Ini) (target_section target_field value : str)
    (st : rewrite_state) (raw : str) : flow rewrite_state bool :=
  let line := trim raw in
  if is_ignore_line ini line then
    Continue {| found_mode := found_mode st;
                current_section := current_section st;
                oss := oss st ++ line ++ [LF] |}
  else if starts_with_bracket line then
    match find line (lit "]") with
    | None => Return false
    | Some pos =>
        if pos =? 1 then Return false
        else
          let cs := substr line 1 (pos - 1) in
          if Str.eqb cs target_section then
            Continue {| found_mode := SECTION_MATCH;
                        current_section := cs;
                        oss := oss st ++ line ++ [LF] |}
          else if FoundMode_eqb (found_mode st) SECTION_MATCH
                  && negb (Str.eqb cs target_section) then
            Continue {| found_mode := BOTH_MATCH;
                        current_section := cs;
                        oss := oss st
                               ++ (assignment ini target_field value
                                   ++ LF :: line) ++ [LF] |}
          else
            Continue {| found_mode := found_mode st;
                        current_section := cs;
                        oss := oss st ++ line ++ [LF] |}
    end
  else
    if Str.eqb (current_section st) [] then Return false
    else
      match find_char line (field_separator_ ini) with
      | None => Return false
      | Some pos =>
          let current_field := trim (substr line 0 pos) in
          if Str.eqb (current_section st) target_section
             && Str.eqb current_field target_field
          then
            Continue {| found_mode := BOTH_MATCH;
                        current_section := current_section st;
                        oss := oss st
                               ++ assignment ini (c_str target_field) value
                               ++ [LF] |}
          else
            Continue {| found_mode := found_mode st;
                        current_section := current_section st;
                        oss := oss st ++ line ++ [LF] |}
      end.

Definition rewrite_init : rewrite_state :=
  {| found_mode := NO_MATCH; current_section := []; oss := [] |}.

(** What follows the loop of [Ini::set_field], up to [oss.str()]. *)
Definition set_field_finish (ini : Ini)
    (target_section target_field value : str) (st : rewrite_state) : str :=
  match found_mode st with
  | NO_MATCH =>
      oss st ++ ("["%char :: target_section ++ ["]"%char; LF])
             ++ assignment ini target_field value ++ [LF]
  | SECTION_MATCH =>
      oss st ++ assignment ini target_field value ++ [LF]
  | BOTH_MATCH => oss st
  end.

(** The text [Ini::set_field] hands to the output file for a text already
    loaded; [None] when the scan returns [false] first. *)
Definition rewrite (ini : Ini) (target_section target_field value : str)
    (text : str) : option str :=
  match for_lines (set_field_body ini target_section target_field value)
          rewrite_init (getlines text) with
  | Return _ => None
  | Continue st =>
      Some (pop_back (set_field_finish ini target_section target_field value st))
  end.

(** [Ini::set_field] *)
Definition set_field (ini : Ini) (target_section target_field value : str)
  : IO bool :=
  text <- slurp (file_path_ ini) ;;
  match rewrite ini target_section target_field value text with
  | None => ret false
  | Some result => spit (file_path_ ini) result
  end.

(** ** Conversions of the C and C++ libraries *)

Module Conv.

Local Open Scope Z_scope.

(** [long] and [int] of an LP64 platform. *)
Definition LONG_MAX : Z := 2 ^ 63 - 1.
Definition LONG_MIN : Z := - 2 ^ 63.
Definition INT_MAX : Z := 2 ^ 31 - 1.
Definition INT_MIN : Z := - 2 ^ 31.

(** The implicit conversion of the [long] that [std::stol] returns to the
    [int] that [read_int] returns. *)
Definition long_to_int (v : Z) : Z := (v + 2 ^ 31) mod 2 ^ 32 - 2 ^ 31.

(** The value of a character as a digit: ['0'..'9'], then the letters of
    either case from ten on. *)
Definition digit_of (c : ascii) : option Z :=
  let n := Z.of_nat (nat_of_ascii c) in
  if (48 <=? n) && (n <=? 57) then Some (n - 48)
  else if (97 <=? n) && (n <=? 122) then Some (n - 87)
  else if (65 <=? n) && (n <=? 90) then Some (n - 55)
  else None.

Definition is_digit_in (base : Z) (c : ascii) : bool :=
  match digit_of c with
  | Some d => d <? base
  | None => false
  end.

(** The longest run of digits of [base] at the head of [s]: the number it
    denotes after the digits already in [acc], and its length. *)
Fixpoint scan_digits (base : Z) (s : str) (acc : Z) : Z * nat :=
  match s with
  | [] => (acc, 0%nat)
  | c :: s' =>
      match digit_of c with
      | Some d =>
          if d <? base
          then let (v, n) := scan_digits base s' (acc * base + d) in (v, S n)
          else (acc, 0%nat)
      | None => (acc, 0%nat)
      end
  end.

(** Number of leading [isspace] characters ("C" locale). *)
Fixpoint count_space (s : str) : nat :=
  match s with
  | c :: s' => if is_whitespace c then S (count_space s') else 0%nat
  | [] => 0%nat
  end.

Record strtol_result : Type := StrtolResult {
  strtol_value : Z;        (* the returned [long] *)
  strtol_end : nat;        (* [endptr - nptr] *)
  strtol_erange : bool     (* [errno == ERANGE] *)
}.

(** The optional sign: whether it is a minus, how many characters it takes,
    and what follows it. *)
Definition strtol_sign (r : str) : bool * nat * str :=
  match r with
  | c :: r' =>
      if Ascii.eqb c "-"%char then (true, 1%nat, r')
      else if Ascii.eqb c "+"%char then (false, 1%nat, r')
      else (false, 0%nat, r)
  | [] => (false, 0%nat, r)
  end.

(** The optional [0x] or [0X] of base 16, taken only when a hexadecimal
    digit follows it: how many characters it takes, and what follows it. *)
Definition strtol_prefix (base : Z) (r : str) : nat * str :=
  match r with
  | z :: x :: h :: _ =>
      if (base =? 16) && Ascii.eqb z "0"%char
         && (Ascii.eqb x "x"%char || Ascii.eqb x "X"%char)
         && is_digit_in 16 h
      then (2%nat, skipn 2 r)
      else (0%nat, r)
  | _ => (0%nat, r)
  end.

(** [std::strtol(s.c_str(), &endptr, base)] for [base] 8, 10 or 16: white
    space, an optional sign, for base 16 an optional prefix, then the
    longest run of digits.  With no digit at all nothing is converted and
    [endptr] is the start. *)
Definition strtol (s : str) (base : Z) : strtol_result :=
  let text := c_str s in
  let k0 := count_space text in
  let '(negative, k1, r1) := strtol_sign (skipn k0 text) in
  let '(k2, r2) := strtol_prefix base r1 in
  let '(magnitude, n) := scan_digits base r2 0 in
  match n with
  | O => {| strtol_value := 0; strtol_end := 0; strtol_erange := false |}
  | S _ =>
      let v := if negative then - magnitude else magnitude in
      {| strtol_value := Z.max LONG_MIN (Z.min LONG_MAX v);
         strtol_end := (k0 + k1 + k2 + n)%nat;
         strtol_erange := (v <? LONG_MIN) || (LONG_MAX <? v) |}
  end.

(** [*endptr == '\0'] after [std::strtol(s.c_str(), &endptr, base)]. *)
Definition consumed_whole (s : str) (base : Z) : bool :=
  (strtol_end (strtol s base) =? List.length (c_str s))%nat.

(** [std::stol(s)]: [None] when it throws ([std::invalid_argument] if nothing
    was converted, [std::out_of_range] on [ERANGE]). *)
Definition stol (s : str) : option Z :=
  let r := strtol s 10 in
  match strtol_end r with
  | O => None
  | S _ => if strtol_erange r then None else Some (strtol_value r)
  end.

(** The decimal digits of [n], most significant first, for [n < 10 ^ fuel]. *)
Fixpoint decimal (fuel : nat) (n : Z) : str :=
  match fuel with
  | O => []
  | S fuel' =>
      if n <? 10 then [ascii_of_nat (Z.to_nat (48 + n))]
      else decimal fuel' (n / 10) ++ [ascii_of_nat (Z.to_nat (48 + n mod 10))]
  end.

(** [ss << value] for an [int]: at most ten digits, after a minus sign when
    negative. *)
Definition int_to_text (v : Z) : str :=
  if v <? 0 then "-"%char :: decimal 10 (- v) else decimal 10 v.

End Conv.
Import Conv.

(** ** The public member functions *)

Section PublicInterface.

(** [double] and its two conversions of the C++ library: [std::stod]
    ([None] when it throws) and [ss << value]. *)
Variable double : Type.
Variable stod : str -> option double.
Variable double_to_text : double -> str.

(** [Ini::is_convertable_to_long] *)
Definition is_convertable_to_long (value : str) : bool :=
  if consumed_whole value 10 then true
  else if consumed_whole value 8 then true
  else if consumed_whole value 16 then true
  else false.

(** [Ini::read_bool] *)
Definition read_bool (ini : Ini) (section_name field_name : str)
    (default_value : bool) : IO bool :=
  r <- try_get_field ini section_name field_name ;;
  match r with
  | None => ret default_value
  | Some s =>
      let s := upcase s in
      if Str.eqb s (lit "TRUE") || Str.eqb s (lit "1") then ret true
      else if Str.eqb s (lit "FALSE") || Str.eqb s (lit "0") then ret false
      else ret default_value
  end.

(** [Ini::read_int] *)
Definition read_int (ini : Ini) (section_name field_name : str)
    (default_value : Z) : IO Z :=
  r <- try_get_field ini section_name field_name ;;
  match r with
  | None => ret default_value
  | Some s =>
      if negb (is_convertable_to_long s) then ret default_value
      else match stol s with
           | Some value => ret (long_to_int value)
           | None => ret default_value
           end
  end.

(** [Ini::read_double] *)
Definition read_double (ini : Ini) (section_name field_name : str)
    (default_value : double) : IO double :=
  r <- try_get_field ini section_name field_name ;;
  match r with
  | None => ret default_value
  | Some s => match stod s with
              | Some value => ret value
              | None => ret default_value
              end
  end.

(** [Ini::read_str] *)
Definition read_str (ini : Ini) (section_name field_name : str)
    (default_value : str) : IO str :=
  r <- try_get_field ini section_name field_name ;;
  match r with
  | None => ret default_value
  | Some s => ret s
  end.

(** [Ini::write_bool] *)
Definition write_bool (ini : Ini) (section_name field_name : str)
    (value : bool) : IO bool :=
  set_field ini section_name field_name
    (if value then lit "true" else lit "false").

(** [Ini::write_int] *)
Definition write_int (ini : Ini) (section_name field_name : str)
    (value : Z) : IO bool :=
  set_field ini section_name field_name (int_to_text value).

(** [Ini::write_double] *)
Definition write_double (ini : Ini) (section_name field_name : str)
    (value : double) : IO bool :=
  set_field ini section_name field_name (double_to_text value).

(** [Ini::write_str] *)
Definition write_str (ini : Ini) (section_name field_name : str)
    (value : str) : IO bool :=
  set_field ini section_name field_name value.

End PublicInterface.

(** ** Sample documents *)

Definition disk (path text : str) : file_system :=
  {| file_content := fun p => if Str.eqb p path then Some text else None;
     can_open_for_writing := fun _ => true |}.

Definition hoge : Ini := Ini_new (lit "hoge.ini").

Definition text_of (ini : Ini) (fs : file_system) : option str :=
  file_content fs (file_path_ ini).

(** A text given line by line; a last line [""] makes it end with a line
    terminator. *)
Definition text_lines (ls : list string) : str :=
  pop_back (emit_lines (map lit ls)).

(** The example of the insertion placement. *)
Definition doc_two_sections : str :=
  text_lines ["[A]"; "X=1"; "[B]"; "Y=2"]%string.

(** The same, ending with a line terminator. *)
Definition doc_trailing_terminator : str :=
  text_lines ["[A]"; "X=1"; "[B]"; "Y=2"; ""]%string.

(** Section [A] opened a second time, after its field [K]. *)
Definition doc_reopened : str :=
  text_lines ["[A]"; "K=1"; "[A]"; "X=2"]%string.

(** Section [A] opened a second time, after section [B]. *)
Definition doc_reopened_later : str :=
  text_lines ["[A]"; "X=1"; "[B]"; "Y=2"; "[A]"; "W=3"]%string.

(** A comment and an assignment with whitespace around them. *)
Definition doc_padded : str :=
  text_lines ["[A]"; "  ; c  "; " K = 1 "]%string.

(** The same field name in two sections. *)
Definition doc_same_field : str :=
  text_lines ["[A]"; "K=1"; "[B]"; "K=2"]%string.

(** A field before any header, and a genuine match after it. *)
Definition doc_orphan : str :=
  text_lines ["Z=1"; "[A]"; "K=5"]%string.

(** A field assigned nothing, then something. *)
Definition doc_empty_value : str :=
  text_lines ["[A]"; "K=   "; "K=7"]%string.


(** A disk that holds the file of [hoge] alone, with the text [text]. *)
Definition on_disk (text : str) : file_system := disk (file_path_ hoge) text.

(** The text a call on [ini] loads from the disk [fs]. *)
Definition loaded (ini : Ini) (fs : file_system) : str :=
  fst (slurp (file_path_ ini) fs).

(** ** Vocabulary of the statements *)

(** [s] without its leading whitespace. *)
Fixpoint strip_front (s : str) : str :=
  match s with
  | [] => []
  | c :: s' => if is_whitespace c then strip_front s' else s
  end.

(** [s] without its trailing whitespace. *)
Fixpoint strip_back (s : str) : str :=
  match s with
  | [] => []
  | c :: s' => match strip_back s' with
               | [] => if is_whitespace c then [] else [c]
               | t => c :: t
               end
  end.

(** A string that holds no line terminator. *)
Definition one_line (s : str) : Prop := ~ In LF s.

(** A line that makes both scans give up, when [cs] is the section the scan
    is in ([cs] is empty until the first header): a header without ["]"] or
    with an empty name, and a line that is neither blank, comment nor header
    and either comes before every header or holds no separator. *)
Definition malformed_line (ini : Ini) (cs raw : str) : bool :=
  let line := trim raw in
  negb (is_ignore_line ini line)
  && (if starts_with_bracket line then
        match find line (lit "]") with
        | None => true
        | Some pos => pos =? 1
        end
      else
        Str.eqb cs []
        || match find_char line (field_separator_ ini) with
           | None => true
           | Some _ => false
           end).

(** A line that assigns [value] to the field [name]: it is neither blank,
    comment nor header, [name] is what precedes its first separator and
    [value] what follows it, both trimmed. *)
Definition assigns_value (ini : Ini) (name value raw : str) : Prop :=
  let line := trim raw in
  is_ignore_line ini line = false
  /\ starts_with_bracket line = false
  /\ exists pos, find_char line (field_separator_ ini) = Some pos
                 /\ trim (substr line 0 pos) = name
                 /\ trim (substr_from line (pos + 1)) = value.

Definition assigns (ini : Ini) (name raw : str) : Prop :=
  exists value, assigns_value ini name value raw.

(** A line that is the header of the section [sec]: it begins with a
    bracket, and [sec], which is not empty, is what stands before its first
    closing bracket. *)
Definition names_section (ini : Ini) (sec raw : str) : Prop :=
  let line := trim raw in
  is_ignore_line ini line = false
  /\ starts_with_bracket line = true
  /\ exists pos, find line (lit "]") = Some pos
                 /\ (pos =? 1) = false
                 /\ substr line 1 (pos - 1) = sec.

(** A line inside a section that leaves the field [fld] alone: a blank
    line, a comment, or the assignment of another field. *)
Definition section_line (ini : Ini) (fld raw : str) : Prop :=
  is_ignore_line ini (trim raw) = true
  \/ exists name, name <> fld /\ assigns ini name raw.

(** [[target_section]] as [set_field] writes it. *)
Definition header_of (target_section : str) : str :=
  "["%char :: target_section ++ ["]"%char].

(** What a successful write puts in the buffer for one input line [raw],
    the section it is in left aside: the line as [keep] renders it; or the
    new assignment in its place, when the line assigns the target field; or
    the new assignment and then the line, when the line is a header. *)
Inductive emitted_as (keep : str -> str) (ini : Ini)
    (target_field value raw : str) : list str -> Prop :=
| Kept : emitted_as keep ini target_field value raw [keep raw]
| Replaced :
    assigns ini target_field raw ->
    emitted_as keep ini target_field value raw
      [assignment ini (c_str target_field) value]
| Preceded :
    starts_with_bracket (trim raw) = true ->
    emitted_as keep ini target_field value raw
      [assignment ini target_field value; keep raw].

(** What a successful write puts in the buffer after the last line. *)
Inductive appended (ini : Ini) (target_section target_field value : str)
  : list str -> Prop :=
| NothingMore : appended ini target_section target_field value []
| NewField :
    appended ini target_section target_field value
      [assignment ini target_field value]
| NewSection :
    appended ini target_section target_field value
      [header_of target_section; assignment ini target_field value].

(** The section a document is in after the line [raw], when it was in [cs]
    before it: the one [raw] names when it is a header, and [cs] still
    after any other line. *)
Definition section_after (ini : Ini) (cs raw : str) : str :=
  let line := trim raw in
  if is_ignore_line ini line then cs
  else if starts_with_bracket line then
    match find line (lit "]") with
    | Some pos => substr line 1 (pos - 1)
    | None => cs
    end
  else cs.

(** The section a document is in after the lines [before]; it is in the
    section without a name until the first header. *)
Definition section_at (ini : Ini) (before : list str) : str :=
  fold_left (section_after ini) before [].

(** What a successful write puts in the output for the input line [raw] of
    the section [cs]: the line as [keep] renders it, unless it assigns the
    target field in the target section; the new assignment in its place,
    when it does; or the new assignment and then the line, when the line is
    the header that ends the target section. *)
Inductive rendered_as (keep : str -> str) (ini : Ini)
    (target_section target_field value cs raw : str) : list str -> Prop :=
| LineKept :
    ~ (cs = target_section /\ assigns ini target_field raw) ->
    rendered_as keep ini target_section target_field value cs raw [keep raw]
| LineReplaced :
    cs = target_section ->
    assigns ini target_field raw ->
    rendered_as keep ini target_section target_field value cs raw
      [assignment ini (c_str target_field) value]
| LinePreceded :
    cs = target_section ->
    (exists sec, sec <> target_section /\ names_section ini sec raw) ->
    rendered_as keep ini target_section target_field value cs raw
      [assignment ini target_field value; keep raw].

(** The lines of a document that is in section [cs], each with what a
    successful write puts in the output for it. *)
Inductive framed (keep : str -> str) (ini : Ini)
    (target_section target_field value : str)
  : str -> list str -> list (list str) -> Prop :=
| framed_nil (cs : str) :
    framed keep ini target_section target_field value cs [] []
| framed_cons (cs raw : str) (lines : list str) (chunk : list str)
    (chunks : list (list str)) :
    rendered_as keep ini target_section target_field value cs raw chunk ->
    framed keep ini target_section target_field value
      (section_after ini cs raw) lines chunks ->
    framed keep ini target_section target_field value cs (raw :: lines)
      (chunk :: chunks).

(** The output text [out] is the input [text] line for line, each line
    rendered by [keep], but for the assignments of the target field in the
    target section; nothing is added but the new assignment, before the
    header that ends the target section or after the last line, there after
    a new header if need be. *)
Definition frame (keep : str -> str) (ini : Ini)
    (target_section target_field value text out : str) : Prop :=
  exists (chunks : list (list str)) (tail : list str),
    framed keep ini target_section target_field value [] (getlines text)
      chunks
    /\ appended ini target_section target_field value tail
    /\ out = pop_back (emit_lines (List.concat chunks ++ tail)).

(** The section name [sec] can be read back from the header [set_field]
    writes for it: it is not empty, holds neither a closing bracket nor a
    line terminator, and its header is not taken for a comment. *)
Definition readable_header (ini : Ini) (sec : str) : Prop :=
  sec <> [] /\ ~ In "]"%char sec /\ one_line sec
  /\ is_ignore_line ini (header_of sec) = false.

(** The field name [fld] and the text [v] can be read back from the
    assignment [set_field] writes for them: [fld] is trimmed, holds no NUL
    and no separator; [v] is trimmed and not empty; and the line is one
    line, has no whitespace at either end, and is taken neither for a
    comment nor for a header. *)
Definition readable_assignment (ini : Ini) (fld v : str) : Prop :=
  let line := assignment ini fld v in
  trim fld = fld /\ c_str fld = fld /\ ~ In (field_separator_ ini) fld
  /\ v <> [] /\ trim v = v
  /\ one_line line /\ trim line = line
  /\ is_ignore_line ini line = false /\ starts_with_bracket line = false.

(** Where the reader stands on the lines [out] that a rewrite scan has put
    in the buffer, when it starts in section [cs] and the scan stands in
    [st']: either it has met the new assignment and returns [v], or it has
    not and is in the section the scan is in. *)
Definition read_back_so_far (ini : Ini) (target_section target_field v : str)
    (cs : str) (out : list str) (st' : rewrite_state) : Prop :=
  (forall rest,
     for_lines (try_get_field_body ini target_section target_field) cs
       (out ++ rest) = Return (Some v))
  \/ (found_mode st' <> BOTH_MATCH
      /\ (found_mode st' = SECTION_MATCH ->
          current_section st' = target_section)
      /\ forall rest,
           for_lines (try_get_field_body ini target_section target_field) cs
             (out ++ rest)
           = for_lines (try_get_field_body ini target_section target_field)
               (current_section st') rest).

(** One of the characters ['0'] to ['9']. *)
Definition digit_char (c : ascii) : Prop :=
  exists d : Z, (0 <= d <= 9)%Z /\ c = ascii_of_nat (Z.to_nat (48 + d)).

(** The code of a character, as a number. *)
Definition char_code (c : ascii) : Z := Z.of_nat (nat_of_ascii c).

(** A character that is a digit of [base]: ['0'] to ['9'] count from zero,
    the letters of either case from ten. *)
Definition digit_in_base (base : Z) (c : ascii) : bool :=
  let n := char_code c in
  ((48 <=? n) && (n <=? 57) && (n - 48 <? base)
   || (97 <=? n) && (n <=? 122) && (n - 87 <? base)
   || (65 <=? n) && (n <=? 90) && (n - 55 <? base))%Z.






(** Whether [write_str] succeeds, and what [read_str] returns after it. *)
Definition write_then_read_str (ini : Ini) (sec fld v d : str)
    (fs : file_system) : bool * str :=
  let r := write_str ini sec fld v fs in
  (fst r, fst (read_str ini sec fld d (snd r))).

(** The mode in which the rewrite scan leaves [lines]. *)
Definition mode_after (ini : Ini) (target_section target_field value : str)
    (lines : list str) : option FoundMode :=
  match for_lines (set_field_body ini target_section target_field value)
          rewrite_init lines with
  | Continue st => Some (found_mode st)
  | Return _ => None
  end.


(** ** Strings: facts *)

Section StrFacts.

Lemma ascii_eqb_eq (a b : ascii) : Ascii.eqb a b = true <-> a = b.
Proof. apply Ascii.eqb_eq. Qed.

Lemma str_eqb_eq (a b : str) : Str.eqb a b = true <-> a = b.
Proof.
  revert b; induction a as [|x a IH]; intros [|y b]; simpl;
    try (split; (reflexivity || discriminate)).
  rewrite andb_true_iff, Ascii.eqb_eq, IH.
  split; [intros [-> ->]; reflexivity | intros H; inversion H; auto].
Qed.

Lemma str_eqb_refl (a : str) : Str.eqb a a = true.
Proof. apply str_eqb_eq; reflexivity. Qed.

Lemma str_eqb_neq (a b : str) : Str.eqb a b = false <-> a <> b.
Proof.
  rewrite <- str_eqb_eq. destruct (Str.eqb a b); split; congruence.
Qed.

Lemma for_lines_app {S R} (body : S -> str -> flow S R) (xs ys : list str) :
  forall st,
    for_lines body st (xs ++ ys) =
    match for_lines body st xs with
    | Continue st' => for_lines body st' ys
    | Return r => Return r
    end.
Proof.
  induction xs as [|x xs IH]; intros st; simpl; [reflexivity|].
  destruct (body st x); [apply IH | reflexivity].
Qed.

(** *** Trimming *)

Lemma find_last_not_of_strip (s : str) :
  match find_last_not_of s with
  | None => strip_back s = []
  | Some p => firstn (p + 1) s = strip_back s /\ strip_back s <> []
  end.
Proof.
  induction s as [|c s IH]; simpl; [reflexivity|].
  destruct (find_last_not_of s) as [p|].
  - destruct IH as [IH Hne]. simpl. rewrite IH.
    destruct (strip_back s); [congruence | split; [reflexivity | discriminate]].
  - rewrite IH. destruct (is_whitespace c); [reflexivity|].
    split; [reflexivity | discriminate].
Qed.

Lemma find_first_not_of_strip (s : str) :
  match find_first_not_of s with
  | None => strip_front s = []
  | Some p => skipn p s = strip_front s
  end.
Proof.
  induction s as [|c s IH]; simpl; [reflexivity|].
  destruct (is_whitespace c); [|reflexivity].
  destruct (find_first_not_of s); simpl; exact IH.
Qed.

(** [trim] removes the trailing, then the leading whitespace. *)
Lemma trim_strip (s : str) : trim s = strip_front (strip_back s).
Proof.
  unfold trim. pose proof (find_last_not_of_strip s) as H.
  destruct (find_last_not_of s) as [p|].
  - destruct H as [-> _].
    pose proof (find_first_not_of_strip (strip_back s)) as H.
    destruct (find_first_not_of (strip_back s)); congruence.
  - rewrite H. reflexivity.
Qed.

Lemma strip_front_idem (s : str) : strip_front (strip_front s) = strip_front s.
Proof.
  induction s as [|c s IH]; simpl; [reflexivity|].
  destruct (is_whitespace c) eqn:E; [exact IH | simpl; rewrite E; reflexivity].
Qed.

Lemma strip_back_idem (s : str) : strip_back (strip_back s) = strip_back s.
Proof.
  induction s as [|c s IH]; simpl; [reflexivity|].
  destruct (strip_back s) as [|d t] eqn:E.
  - destruct (is_whitespace c) eqn:W; simpl; [reflexivity | rewrite W; reflexivity].
  - simpl in *. rewrite IH. reflexivity.
Qed.

(** Removing leading whitespace leaves a clean end clean. *)
Lemma strip_back_front (s : str) :
  strip_back s = s -> strip_back (strip_front s) = strip_front s.
Proof.
  induction s as [|c s IH]; simpl; [reflexivity|].
  intros H. destruct (is_whitespace c) eqn:W.
  - apply IH. destruct (strip_back s) as [|d t] eqn:E.
    + discriminate.
    + inversion H. congruence.
  - simpl. rewrite W. exact H.
Qed.

Lemma trim_idem (s : str) : trim (trim s) = trim s.
Proof.
  rewrite !trim_strip.
  rewrite (strip_back_front (strip_back s)) by apply strip_back_idem.
  apply strip_front_idem.
Qed.

Lemma trim_fix_strip (s : str) :
  trim s = s -> strip_back s = s /\ strip_front s = s.
Proof.
  rewrite trim_strip. intros H.
  assert (Hb : strip_back s = s).
  { rewrite <- H at 1.
    rewrite (strip_back_front (strip_back s)) by apply strip_back_idem.
    exact H. }
  split; [exact Hb | rewrite Hb in H; exact H].
Qed.

Lemma strip_back_app (a b : str) :
  b <> [] -> strip_back b = b -> strip_back (a ++ b) = a ++ b.
Proof.
  intros Hne Hb. induction a as [|c a IH]; simpl; [exact Hb|].
  rewrite IH. destruct (a ++ b) eqn:E; [|reflexivity].
  apply app_eq_nil in E. tauto.
Qed.

Lemma strip_front_app (a b : str) :
  a <> [] -> strip_front a = a -> strip_front (a ++ b) = a ++ b.
Proof.
  destruct a as [|c a]; [congruence|]. simpl. intros _.
  destruct (is_whitespace c) eqn:W; [|reflexivity].
  intros H. exfalso.
  assert (L : forall t, List.length (strip_front t) <= List.length t).
  { induction t as [|x t IHt]; simpl; [lia|].
    destruct (is_whitespace x); simpl; lia. }
  specialize (L a). rewrite H in L. simpl in L. lia.
Qed.

(** Nothing appears in [trim s] that is not in [s]. *)
Lemma trim_incl (s : str) (c : ascii) : In c (trim s) -> In c s.
Proof.
  rewrite trim_strip.
  assert (F : forall t, In c (strip_front t) -> In c t).
  { induction t as [|x t IHt]; simpl; [tauto|].
    destruct (is_whitespace x); simpl; tauto. }
  assert (B : forall t, In c (strip_back t) -> In c t).
  { induction t as [|x t IHt]; simpl; [tauto|].
    destruct (strip_back t) as [|d u].
    - destruct (is_whitespace x); simpl; tauto.
    - simpl in *. tauto. }
  intros H. apply B, F, H.
Qed.

Lemma trim_one_line (s : str) : one_line s -> one_line (trim s).
Proof. unfold one_line. intros H Hin. apply H, trim_incl, Hin. Qed.

End StrFacts.

(** ** Lines: facts *)

Section LineFacts.

Lemma split_lines_not_nil (s : str) : split_lines s <> [].
Proof.
  destruct s as [|c s]; simpl; [discriminate|].
  destruct (Ascii.eqb c LF); [discriminate|].
  destruct (split_lines s); discriminate.
Qed.

Lemma split_lines_cut (a b : str) :
  split_lines (a ++ LF :: b) = split_lines a ++ split_lines b.
Proof.
  induction a as [|c a IH]; simpl.
  - reflexivity.
  - destruct (Ascii.eqb c LF); rewrite IH; [reflexivity|].
    pose proof (split_lines_not_nil a) as Hne.
    destruct (split_lines a); [congruence | reflexivity].
Qed.

Lemma split_lines_one_line (s : str) : one_line s -> split_lines s = [s].
Proof.
  unfold one_line. induction s as [|c s IH]; simpl; intros H; [reflexivity|].
  destruct (Ascii.eqb c LF) eqn:E.
  - apply Ascii.eqb_eq in E. subst. tauto.
  - rewrite IH by tauto. reflexivity.
Qed.

Lemma split_lines_all_one_line (s : str) : Forall one_line (split_lines s).
Proof.
  unfold one_line. induction s as [|c s IH]; simpl.
  - constructor; [simpl; tauto | constructor].
  - destruct (Ascii.eqb c LF) eqn:E.
    + constructor; [simpl; tauto | exact IH].
    + assert (Hc : LF <> c).
      { intros Hc. subst c. rewrite Ascii.eqb_refl in E. discriminate. }
      destruct (split_lines s) as [|l ls].
      * constructor; [simpl; intros [H|[]]; congruence | constructor].
      * inversion IH as [|? ? Hl Hls]; subst.
        constructor; [|assumption].
        simpl. intros [H|H]; [congruence | exact (Hl H)].
Qed.

Lemma getlines_all_one_line (text : str) : Forall one_line (getlines text).
Proof.
  destruct text; simpl; [constructor|].
  apply (split_lines_all_one_line (a :: text)).
Qed.

(** A text that ends with a line terminator has one more, empty, line. *)
Lemma getlines_trailing_LF (c : str) :
  getlines (c ++ [LF]) = split_lines c ++ [[]].
Proof.
  unfold getlines. rewrite split_lines_cut.
  destruct c; reflexivity.
Qed.

Lemma emit_lines_app (xs ys : list str) :
  emit_lines (xs ++ ys) = emit_lines xs ++ emit_lines ys.
Proof.
  induction xs as [|x xs IH]; simpl; [reflexivity|].
  rewrite <- app_assoc. simpl. rewrite IH. reflexivity.
Qed.

Lemma emit_lines_nil (ls : list str) : emit_lines ls = [] -> ls = [].
Proof.
  destruct ls as [|l ls]; simpl; [reflexivity|].
  intros H. apply app_eq_nil in H. destruct H; discriminate.
Qed.

(** Cutting the text that [set_field] stores back into lines gives the
    lines that were put in the buffer. *)
Lemma split_emit_lines (ls : list str) :
  ls <> [] -> Forall one_line ls ->
  split_lines (pop_back (emit_lines ls)) = ls.
Proof.
  unfold pop_back. induction ls as [|l ls IH]; [congruence|].
  intros _ H. inversion H as [|? ? Hl Hls]; subst. simpl.
  destruct ls as [|l2 ls].
  - simpl. rewrite removelast_last. apply split_lines_one_line, Hl.
  - change (l ++ LF :: emit_lines (l2 :: ls))
      with (l ++ (LF :: emit_lines (l2 :: ls))).
    rewrite removelast_app by discriminate.
    assert (Hne : emit_lines (l2 :: ls) <> []).
    { intros E. apply emit_lines_nil in E. discriminate. }
    change (removelast (LF :: emit_lines (l2 :: ls)))
      with (match emit_lines (l2 :: ls) with
            | [] => []
            | _ :: _ => LF :: removelast (emit_lines (l2 :: ls))
            end).
    destruct (emit_lines (l2 :: ls)) eqn:E; [congruence|].
    rewrite split_lines_cut, split_lines_one_line by exact Hl.
    rewrite IH by (discriminate || assumption). reflexivity.
Qed.

End LineFacts.

(** ** The scans *)

Section ScanFacts.

Variable ini : Ini.
Variables target_section target_field : str.

Lemma try_get_field_run (fs : file_system) :
  try_get_field ini target_section target_field fs
  = (lookup ini target_section target_field (loaded ini fs), fs).
Proof. reflexivity. Qed.

Lemma set_field_run (value : str) (fs : file_system) :
  set_field ini target_section target_field value fs
  = match rewrite ini target_section target_field value (loaded ini fs) with
    | None => (false, fs)
    | Some result => spit (file_path_ ini) result fs
    end.
Proof.
  unfold set_field, bind, loaded, slurp. simpl.
  destruct (rewrite _ _ _ _ _); reflexivity.
Qed.

(** Both scans give up on a malformed line. *)
Lemma try_get_field_body_malformed (cs bad : str) :
  malformed_line ini cs bad = true ->
  try_get_field_body ini target_section target_field cs bad = Return None.
Proof.
  unfold malformed_line, try_get_field_body.
  destruct (is_ignore_line ini (trim bad)); cbn [negb andb]; [discriminate|].
  destruct (starts_with_bracket (trim bad)).
  - destruct (find (trim bad) (lit "]")) as [pos|]; [|reflexivity].
    intros ->. reflexivity.
  - destruct (Str.eqb cs []); cbn [orb]; [reflexivity|].
    destruct (find_char (trim bad) (field_separator_ ini));
      [discriminate | reflexivity].
Qed.

Lemma set_field_body_malformed (value : str) (st : rewrite_state) (bad : str) :
  malformed_line ini (current_section st) bad = true ->
  set_field_body ini target_section target_field value st bad = Return false.
Proof.
  unfold malformed_line, set_field_body.
  destruct (is_ignore_line ini (trim bad)); cbn [negb andb]; [discriminate|].
  destruct (starts_with_bracket (trim bad)).
  - destruct (find (trim bad) (lit "]")) as [pos|]; [|reflexivity].
    intros ->. reflexivity.
  - destruct (Str.eqb (current_section st) []); cbn [orb]; [reflexivity|].
    destruct (find_char (trim bad) (field_separator_ ini));
      [discriminate | reflexivity].
Qed.

(** Which lines the rewrite scan passes, and in which mode and section it
    leaves them, does not depend on the value being written nor on what is
    in the buffer. *)
Lemma set_field_body_control (v v' : str) (st st' : rewrite_state) (raw : str) :
  found_mode st = found_mode st' ->
  current_section st = current_section st' ->
  match set_field_body ini target_section target_field v st raw,
        set_field_body ini target_section target_field v' st' raw with
  | Continue s1, Continue s1' =>
      found_mode s1 = found_mode s1' /\ current_section s1 = current_section s1'
  | Return _, Return _ => True
  | _, _ => False
  end.
Proof.
  intros Hm Hc. unfold set_field_body. rewrite <- Hm, <- Hc.
  destruct (is_ignore_line ini (trim raw)); [simpl; auto|].
  destruct (starts_with_bracket (trim raw)).
  - destruct (find (trim raw) (lit "]")) as [pos|]; [|exact I].
    destruct (pos =? 1); [exact I|].
    destruct (Str.eqb _ target_section); [simpl; auto|].
    destruct (FoundMode_eqb (found_mode st) SECTION_MATCH); simpl; auto.
  - destruct (Str.eqb (current_section st) []); [exact I|].
    destruct (find_char (trim raw) (field_separator_ ini)); [|exact I].
    destruct (_ && _); simpl; auto.
Qed.

Lemma for_lines_set_field_control (v v' : str) (lines : list str) :
  forall st st' st1,
    found_mode st = found_mode st' ->
    current_section st = current_section st' ->
    for_lines (set_field_body ini target_section target_field v) st lines
      = Continue st1 ->
    exists st1',
      for_lines (set_field_body ini target_section target_field v') st' lines
        = Continue st1'
      /\ found_mode st1 = found_mode st1'
      /\ current_section st1 = current_section st1'.
Proof.
  induction lines as [|l ls IH]; simpl; intros st st' st1 Hm Hc H.
  - inversion H; subst. eauto.
  - pose proof (set_field_body_control v v' st st' l Hm Hc) as Hb.
    destruct (set_field_body ini target_section target_field v st l)
      as [s1|]; [|discriminate].
    destruct (set_field_body ini target_section target_field v' st' l)
      as [s1'|]; [|contradiction].
    destruct Hb as [Hm1 Hc1]. eapply IH; eauto.
Qed.

End ScanFacts.

(** ** [strtol] and integer literals *)

Section StrtolFacts.

Local Open Scope Z_scope.

Lemma is_digit_in_base (base : Z) (c : ascii) :
  is_digit_in base c = digit_in_base base c.
Proof.
  unfold is_digit_in, digit_of, digit_in_base, char_code.
  set (n := Z.of_nat (nat_of_ascii c)).
  destruct (Z.leb_spec 48 n), (Z.leb_spec n 57), (Z.leb_spec 97 n),
    (Z.leb_spec n 122), (Z.leb_spec 65 n), (Z.leb_spec n 90);
    cbn [andb orb]; try lia;
    rewrite ?orb_false_r; reflexivity.
Qed.

Lemma char_code_inj (c c' : ascii) : char_code c = char_code c' -> c = c'.
Proof.
  unfold char_code. intros H. apply Nat2Z.inj in H.
  rewrite <- (ascii_nat_embedding c), <- (ascii_nat_embedding c'), H.
  reflexivity.
Qed.






(** The prefix is taken when it is there with a digit after it. *)
Lemma strtol_prefix_taken (pre ds : str) :
  pre = lit "0x" \/ pre = lit "0X" ->
  ds <> [] -> Forall (fun c => digit_in_base 16 c = true) ds ->
  strtol_prefix 16 (pre ++ ds) = (2%nat, ds).
Proof.
  intros Hp Hne Hd. destruct ds as [|h t]; [congruence|].
  inversion Hd as [|? ? Hh _]; subst.
  destruct Hp as [-> | ->]; simpl; rewrite is_digit_in_base, Hh; reflexivity.
Qed.















End StrtolFacts.


(** ** The read path *)

Section ReadPath.

Variable double : Type.
Variable stod : str -> option double.

Variable ini : Ini.
Variables section_name field_name : str.

Local Abbreviation scan :=
  (for_lines (try_get_field_body ini section_name field_name)).

(** When the lookup finds nothing, every reader hands back its default. *)
Lemma readers_default (fs : file_system) :
  lookup ini section_name field_name (loaded ini fs) = None ->
  (forall d, read_bool ini section_name field_name d fs = (d, fs))
  /\ (forall d, read_int ini section_name field_name d fs = (d, fs))
  /\ (forall d, read_double double stod ini section_name field_name d fs
                = (d, fs))
  /\ (forall d, read_str ini section_name field_name d fs = (d, fs)).
Proof.
  intros H.
  unfold read_bool, read_int, read_double, read_str, bind.
  rewrite try_get_field_run, H. repeat split; reflexivity.
Qed.

(** A scan that returns on the line after [pre] never looks at [post]. *)
Lemma lookup_stops (text : str) (pre post : list str) (l cs : str)
    (r : option str) :
  getlines text = pre ++ l :: post ->
  scan [] pre = Continue cs ->
  try_get_field_body ini section_name field_name cs l = Return r ->
  lookup ini section_name field_name text = r.
Proof.
  intros Hdoc Hpre Hl. unfold lookup.
  rewrite Hdoc, for_lines_app, Hpre. simpl. rewrite Hl. reflexivity.
Qed.

(** C4.  The lookup is a strict forward scan.  Let the document be the lines
    [pre], then [bad], then [post], where the scan gets through [pre] without
    returning, in section [cs], and [bad] is malformed there (a header with
    no closing bracket or with an empty name, a line without separator, or a
    line that precedes every header).  Then each of the four readers returns
    its default, whatever [post] holds, a genuine match included. *)
Theorem C4_malformed_line_aborts_lookup
    (fs : file_system) (pre post : list str) (bad cs : str) :
  getlines (loaded ini fs) = pre ++ bad :: post ->
  scan [] pre = Continue cs ->
  malformed_line ini cs bad = true ->
  (forall d, read_bool ini section_name field_name d fs = (d, fs))
  /\ (forall d, read_int ini section_name field_name d fs = (d, fs))
  /\ (forall d, read_double double stod ini section_name field_name d fs
                = (d, fs))
  /\ (forall d, read_str ini section_name field_name d fs = (d, fs)).
Proof.
  intros Hdoc Hpre Hbad. apply readers_default.
  eapply lookup_stops; eauto.
  apply try_get_field_body_malformed, Hbad.
Qed.

(** C8.  Let the document be the lines [pre], then [l], then [post], where
    the scan gets through [pre] without returning and is then in the target
    section, and [l] assigns the target field a value that is empty once
    trimmed: [l] is the first line that matches the target.  Then each of
    the four readers returns its default, as if the field were absent. *)
Theorem C8_empty_value_reads_as_absent
    (fs : file_system) (pre post : list str) (l : str) :
  getlines (loaded ini fs) = pre ++ l :: post ->
  scan [] pre = Continue section_name ->
  assigns_value ini field_name [] l ->
  (forall d, read_bool ini section_name field_name d fs = (d, fs))
  /\ (forall d, read_int ini section_name field_name d fs = (d, fs))
  /\ (forall d, read_double double stod ini section_name field_name d fs
                = (d, fs))
  /\ (forall d, read_str ini section_name field_name d fs = (d, fs)).
Proof.
  intros Hdoc Hpre (Hi & Hb & pos & Hpos & Hname & Hval).
  apply readers_default. eapply lookup_stops; eauto.
  unfold try_get_field_body. rewrite Hi, Hb, Hpos, Hname, Hval.
  destruct (Str.eqb section_name []); [reflexivity|].
  rewrite !str_eqb_refl. reflexivity.
Qed.

(** C10.  No reader changes the disk: after the call every file has the
    content it had, whether the lookup succeeds, finds nothing or gives up
    on a malformed document. *)
Theorem C10_readers_leave_the_disk_unchanged (fs : file_system) :
  (forall d, snd (read_bool ini section_name field_name d fs) = fs)
  /\ (forall d, snd (read_int ini section_name field_name d fs) = fs)
  /\ (forall d, snd (read_double double stod ini section_name field_name d fs)
                = fs)
  /\ (forall d, snd (read_str ini section_name field_name d fs) = fs).
Proof.
  unfold read_bool, read_int, read_double, read_str, bind.
  rewrite try_get_field_run.
  destruct (lookup ini section_name field_name (loaded ini fs)) as [s|].
  - split; [|split; [|split]]; intros d.
    + destruct (_ || _); [reflexivity|]. destruct (_ || _); reflexivity.
    + destruct (negb _); [reflexivity|]. destruct (stol s); reflexivity.
    + destruct (stod s); reflexivity.
    + reflexivity.
  - repeat split; reflexivity.
Qed.


End ReadPath.

(** ** Integers as text *)

Section DecimalText.

Local Open Scope Z_scope.

Ltac each_digit d :=
  assert (d = 0 \/ d = 1 \/ d = 2 \/ d = 3 \/ d = 4 \/ d = 5 \/ d = 6
          \/ d = 7 \/ d = 8 \/ d = 9) as Hcases by lia;
  repeat (destruct Hcases as [Hcases|Hcases]; [subst d|]); [..|subst d].

Lemma digit_char_value (d : Z) :
  0 <= d <= 9 ->
  digit_of (ascii_of_nat (Z.to_nat (48 + d))) = Some d.
Proof. intros H. each_digit d; reflexivity. Qed.

Lemma digit_char_plain (c : ascii) :
  digit_char c ->
  is_whitespace c = false /\ Ascii.eqb c NUL = false
  /\ Ascii.eqb c "-"%char = false /\ Ascii.eqb c "+"%char = false.
Proof.
  intros (d & H & ->). each_digit d; repeat split; reflexivity.
Qed.

Lemma decimal_digits (fuel : nat) :
  forall n, 0 <= n -> Forall digit_char (decimal fuel n).
Proof.
  induction fuel as [|f IH]; simpl; intros n Hn; [constructor|].
  destruct (n <? 10) eqn:E.
  - apply Z.ltb_lt in E. constructor; [|constructor].
    exists n. split; [lia | reflexivity].
  - apply Forall_app. split.
    + apply IH. apply Z.div_pos; lia.
    + constructor; [|constructor].
      exists (n mod 10). split; [|reflexivity].
      pose proof (Z.mod_pos_bound n 10). lia.
Qed.

Lemma decimal_not_nil (fuel : nat) (n : Z) : decimal (S fuel) n <> [].
Proof.
  simpl. destruct (n <? 10); [discriminate|].
  intros E. apply app_eq_nil in E. destruct E; discriminate.
Qed.

(** Scanning the digits that [decimal] printed gives the number back. *)
Lemma scan_decimal (fuel : nat) :
  forall n rest acc,
    0 <= n < 10 ^ Z.of_nat fuel ->
    scan_digits 10 (decimal fuel n ++ rest) acc
    = let (value, k) :=
        scan_digits 10 rest
          (acc * 10 ^ Z.of_nat (List.length (decimal fuel n)) + n) in
      (value, (List.length (decimal fuel n) + k)%nat).
Proof.
  induction fuel as [|f IH]; intros n rest acc Hn.
  - simpl in *. replace n with 0 by lia.
    replace (acc * 1 + 0) with acc by lia.
    destruct (scan_digits 10 rest acc); reflexivity.
  - cbn [decimal]. destruct (n <? 10) eqn:E.
    + apply Z.ltb_lt in E. cbn [app scan_digits List.length].
      rewrite digit_char_value by lia.
      replace (n <? 10) with true by (symmetry; apply Z.ltb_lt; lia).
      replace (acc * 10 ^ Z.of_nat 1 + n) with (acc * 10 + n) by lia.
      destruct (scan_digits 10 rest (acc * 10 + n)); reflexivity.
    + apply Z.ltb_ge in E.
      assert (Hq : 0 <= n / 10 < 10 ^ Z.of_nat f).
      { split; [apply Z.div_pos; lia|].
        apply Z.div_lt_upper_bound; [lia|].
        rewrite Nat2Z.inj_succ, Z.pow_succ_r in Hn by lia. lia. }
      pose proof (Z.mod_pos_bound n 10 ltac:(lia)) as Hr.
      rewrite <- app_assoc, IH by exact Hq.
      cbn [app scan_digits]. rewrite digit_char_value by lia.
      replace (n mod 10 <? 10) with true by (symmetry; apply Z.ltb_lt; lia).
      rewrite length_app. cbn [List.length].
      set (len := List.length (decimal f (n / 10))).
      replace ((acc * 10 ^ Z.of_nat len + n / 10) * 10 + n mod 10)
        with (acc * 10 ^ Z.of_nat (len + 1) + n).
      2:{ rewrite Nat2Z.inj_add, Z.pow_add_r by lia.
          pose proof (Z.div_mod n 10 ltac:(lia)). simpl (Z.of_nat 1). lia. }
      destruct (scan_digits 10 rest (acc * 10 ^ Z.of_nat (len + 1) + n))
        as [value k].
      f_equal. lia.
Qed.

Lemma c_str_plain (s : str) :
  Forall (fun c => Ascii.eqb c NUL = false) s -> c_str s = s.
Proof.
  induction 1 as [|c s Hc _ IH]; simpl; [reflexivity|].
  rewrite Hc, IH. reflexivity.
Qed.

Lemma strtol_prefix_decimal (r : str) : strtol_prefix 10 r = (0%nat, r).
Proof. destruct r as [|a [|b [|c r]]]; reflexivity. Qed.

Lemma scan_decimal_whole (n : Z) :
  0 <= n < 10 ^ 10 ->
  scan_digits 10 (decimal 10 n) 0 = (n, List.length (decimal 10 n)).
Proof.
  intros Hn. rewrite <- (app_nil_r (decimal 10 n)) at 1.
  rewrite scan_decimal by exact Hn. simpl scan_digits.
  cbv iota. f_equal; lia.
Qed.

Lemma c_str_digits (ds : str) : Forall digit_char ds -> c_str ds = ds.
Proof.
  intros Hd. apply c_str_plain. eapply Forall_impl; [|exact Hd].
  intros c Hc. apply digit_char_plain, Hc.
Qed.

(** [strtol] in base 10 on a run of digits, after a minus sign or not. *)
Lemma strtol_digits (negative : bool) (ds : str) (n : Z) :
  Forall digit_char ds -> ds <> [] ->
  scan_digits 10 ds 0 = (n, List.length ds) ->
  - 2 ^ 63 < n < 2 ^ 63 ->
  let text := if negative then "-"%char :: ds else ds in
  strtol text 10
  = {| strtol_value := if negative then - n else n;
       strtol_end := List.length text;
       strtol_erange := false |}
  /\ c_str text = text.
Proof.
  intros Hd Hne Hscan Hn text.
  assert (Hc : c_str text = text).
  { unfold text. destruct negative; [|apply c_str_digits, Hd].
    simpl. rewrite c_str_digits by exact Hd. reflexivity. }
  split; [|exact Hc]. unfold strtol. rewrite Hc.
  destruct ds as [|c ds']; [congruence|].
  inversion Hd as [|? ? Hc1 _]; subst.
  destruct (digit_char_plain c Hc1) as (Hw & _ & Hm & Hp).
  assert (E : count_space text = 0%nat
              /\ strtol_sign text
                 = (negative, if negative then 1%nat else 0%nat, c :: ds')).
  { unfold text. destruct negative; simpl.
    - split; reflexivity.
    - rewrite Hw, Hm, Hp. split; reflexivity. }
  destruct E as [-> E]. cbn [skipn]. rewrite E.
  rewrite strtol_prefix_decimal, Hscan. cbn [List.length].
  unfold LONG_MIN, LONG_MAX. unfold text.
  destruct negative; cbn [List.length]; f_equal;
    try lia; apply orb_false_iff; split; apply Z.ltb_ge; lia.
Qed.

(** [strtol] in base 10 on the text [write_int] prints for [z] consumes all
    of it and returns [z]. *)
Lemma strtol_int_to_text (z : Z) :
  INT_MIN <= z <= INT_MAX ->
  strtol (int_to_text z) 10
  = {| strtol_value := z;
       strtol_end := List.length (int_to_text z);
       strtol_erange := false |}
  /\ c_str (int_to_text z) = int_to_text z.
Proof.
  unfold INT_MIN, INT_MAX. intros Hz. unfold int_to_text.
  destruct (z <? 0) eqn:Eneg.
  - apply Z.ltb_lt in Eneg.
    pose proof (strtol_digits true (decimal 10 (- z)) (- z)
                  (decimal_digits 10 (- z) ltac:(lia))
                  (decimal_not_nil 9 (- z))
                  (scan_decimal_whole (- z) ltac:(lia)) ltac:(lia)) as H.
    cbv zeta in H. rewrite Z.opp_involutive in H. exact H.
  - apply Z.ltb_ge in Eneg.
    exact (strtol_digits false (decimal 10 z) z
             (decimal_digits 10 z ltac:(lia))
             (decimal_not_nil 9 z)
             (scan_decimal_whole z ltac:(lia)) ltac:(lia)).
Qed.

Lemma long_to_int_id (z : Z) :
  INT_MIN <= z <= INT_MAX -> long_to_int z = z.
Proof.
  unfold INT_MIN, INT_MAX, long_to_int. intros H.
  rewrite Z.mod_small by lia. lia.
Qed.

End DecimalText.

(** ** The write path *)

Section WritePath.

Variable double : Type.
Variable double_to_text : double -> str.

Variable ini : Ini.
Variables target_section target_field : str.

Local Abbreviation body :=
  (set_field_body ini target_section target_field).

(** A scan that gives up on the line after [pre] stores nothing, whatever
    value is being written. *)
Lemma rewrite_stops (text : str) (pre post : list str) (bad v0 : str)
    (st : rewrite_state) :
  getlines text = pre ++ bad :: post ->
  for_lines (body v0) rewrite_init pre = Continue st ->
  malformed_line ini (current_section st) bad = true ->
  forall v, rewrite ini target_section target_field v text = None.
Proof.
  intros Hdoc Hpre Hbad v. unfold rewrite. rewrite Hdoc, for_lines_app.
  destruct (for_lines_set_field_control ini target_section target_field
              v0 v pre rewrite_init rewrite_init st eq_refl eq_refl Hpre)
    as (st' & -> & _ & Hcs).
  simpl. rewrite set_field_body_malformed; [reflexivity|].
  rewrite <- Hcs. exact Hbad.
Qed.

(** C5.  Let the document be the lines [pre], then [bad], then [post], where
    the rewrite scan gets through [pre] without returning and [bad] is
    malformed where the scan then stands.  Then each of the four writers
    returns [false] and leaves the disk as it was: no file is opened for
    writing. *)
Theorem C5_malformed_document_is_left_untouched
    (fs : file_system) (pre post : list str) (bad v0 : str)
    (st : rewrite_state) :
  getlines (loaded ini fs) = pre ++ bad :: post ->
  for_lines (body v0) rewrite_init pre = Continue st ->
  malformed_line ini (current_section st) bad = true ->
  (forall b, write_bool ini target_section target_field b fs = (false, fs))
  /\ (forall z, write_int ini target_section target_field z fs = (false, fs))
  /\ (forall x, write_double double double_to_text ini target_section
                  target_field x fs = (false, fs))
  /\ (forall v, write_str ini target_section target_field v fs = (false, fs)).
Proof.
  intros Hdoc Hpre Hbad.
  assert (H : forall v,
             set_field ini target_section target_field v fs = (false, fs)).
  { intros v. rewrite set_field_run.
    rewrite (rewrite_stops _ _ _ _ _ _ Hdoc Hpre Hbad v). reflexivity. }
  unfold write_bool, write_int, write_double, write_str.
  split; [|split; [|split]]; intros; apply H.
Qed.

(** What one iteration adds to the buffer. *)
Lemma set_field_body_emits (v : str) (st st' : rewrite_state) (raw : str) :
  body v st raw = Continue st' ->
  exists chunk,
    emitted_as trim ini target_field v raw chunk
    /\ oss st' = oss st ++ emit_lines chunk
    /\ (found_mode st' = SECTION_MATCH -> chunk = [trim raw]).
Proof.
  unfold set_field_body.
  destruct (is_ignore_line ini (trim raw)) eqn:Hi.
  { intros H; inversion H; subst; clear H. exists [trim raw]. simpl.
    split; [constructor | split; [reflexivity | intros; reflexivity]]. }
  destruct (starts_with_bracket (trim raw)) eqn:Hb.
  - destruct (find (trim raw) (lit "]")) as [pos|]; [|discriminate].
    destruct (pos =? 1); [discriminate|].
    destruct (Str.eqb _ target_section).
    { intros H; inversion H; subst; clear H. exists [trim raw]. simpl.
      split; [constructor | split; [reflexivity | intros; reflexivity]]. }
    destruct (FoundMode_eqb (found_mode st) SECTION_MATCH); simpl.
    + intros H; inversion H; subst; clear H.
      exists [assignment ini target_field v; trim raw]. simpl.
      split; [apply Preceded, Hb|]. split; [|discriminate].
      rewrite <- !app_assoc. reflexivity.
    + intros H; inversion H; subst; clear H. exists [trim raw]. simpl.
      split; [constructor | split; [reflexivity | intros; reflexivity]].
  - destruct (Str.eqb (current_section st) []); [discriminate|].
    destruct (find_char (trim raw) (field_separator_ ini)) as [pos|] eqn:Hp;
      [|discriminate].
    destruct (Str.eqb (current_section st) target_section
              && Str.eqb (trim (substr (trim raw) 0 pos)) target_field)
      eqn:Hm.
    + intros H; inversion H; subst; clear H.
      exists [assignment ini (c_str target_field) v]. simpl.
      split; [|split; [|discriminate]].
      * apply Replaced. apply andb_true_iff in Hm. destruct Hm as [_ Hm].
        apply str_eqb_eq in Hm.
        exists (trim (substr_from (trim raw) (pos + 1))).
        split; [exact Hi|]. split; [exact Hb|]. exists pos. auto.
      * reflexivity.
    + intros H; inversion H; subst; clear H. exists [trim raw]. simpl.
      split; [constructor | split; [reflexivity | intros; reflexivity]].
Qed.

(** What the whole loop adds to the buffer: a chunk per line. *)
Lemma for_lines_emits (v : str) (lines : list str) :
  forall st st',
    for_lines (body v) st lines = Continue st' ->
    exists chunks,
      Forall2 (emitted_as trim ini target_field v) lines chunks
      /\ oss st' = oss st ++ emit_lines (List.concat chunks)
      /\ (found_mode st' = SECTION_MATCH -> lines <> [] ->
          exists before,
            List.concat chunks = before ++ [trim (last lines [])]).
Proof.
  induction lines as [|l ls IH]; simpl; intros st st' H.
  - inversion H; subst. exists []. simpl. rewrite app_nil_r.
    split; [constructor|]. split; [reflexivity | congruence].
  - destruct (body v st l) as [s1|] eqn:Hl; [|discriminate].
    destruct (set_field_body_emits _ _ _ _ Hl) as (chunk & Hc & Ho & Hk).
    destruct (IH _ _ H) as (chunks & Hcs & Hos & Hks).
    exists (chunk :: chunks). simpl.
    split; [constructor; assumption|].
    split; [rewrite Hos, Ho, emit_lines_app, app_assoc; reflexivity|].
    intros Hm _. destruct ls as [|l2 ls].
    + simpl in H. inversion H; subst. inversion Hcs; subst. simpl.
      rewrite app_nil_r. exists []. simpl. apply Hk, Hm.
    + destruct (Hks Hm) as (before & Hbefore); [discriminate|].
      exists (chunk ++ before). rewrite Hbefore, app_assoc. reflexivity.
Qed.






(** What [framed] puts in the output is one line each, when the input is. *)
Lemma framed_one_line (keep : str -> str) (v cs : str) (lines : list str)
    (chunks : list (list str)) :
  framed keep ini target_section target_field v cs lines chunks ->
  (forall l, one_line l -> one_line (keep l)) ->
  one_line (assignment ini target_field v) ->
  one_line (assignment ini (c_str target_field) v) ->
  Forall one_line lines ->
  Forall one_line (List.concat chunks).
Proof.
  intros HF Hkeep Ha Hac.
  induction HF as [cs|cs raw lines chunk chunks He _ IH]; simpl; intros Hl;
    [constructor|].
  apply Forall_cons_iff in Hl. destruct Hl as [Hraw Hl].
  apply Forall_app. split; [|apply IH, Hl].
  destruct He; repeat constructor; auto.
Qed.

(** A line that [framed] accounts for, and that does not assign the target
    field in the target section, is in the output as [keep] renders it. *)
Lemma framed_keeps_line (keep : str -> str) (v : str) (pre : list str)
    (raw : str) (post : list str) :
  forall cs chunks,
    framed keep ini target_section target_field v cs (pre ++ raw :: post)
      chunks ->
    ~ (fold_left (section_after ini) pre cs = target_section
       /\ assigns ini target_field raw) ->
    In (keep raw) (List.concat chunks).
Proof.
  induction pre as [|p pre IH]; simpl; intros cs chunks HF Hn.
  - inversion HF as [|? ? ? chunk chunks' He _]; subst. simpl.
    apply in_app_iff. left.
    destruct He as [_|Hcs Has|_ _]; simpl; tauto.
  - inversion HF as [|? ? ? chunk chunks' _ HF']; subst. simpl.
    apply in_app_iff. right. apply (IH _ _ HF' Hn).
Qed.

(** A line that [frame keep] accounts for is a line of the output, as
    [keep] renders it, unless it assigns the target field in the target
    section. *)
Lemma frame_keeps_line (keep : str -> str) (v text out : str)
    (pre : list str) (raw : str) (post : list str) :
  frame keep ini target_section target_field v text out ->
  (forall l, one_line l -> one_line (keep l)) ->
  one_line (assignment ini target_field v) ->
  one_line (assignment ini (c_str target_field) v) ->
  one_line (header_of target_section) ->
  getlines text = pre ++ raw :: post ->
  ~ (section_at ini pre = target_section /\ assigns ini target_field raw) ->
  In (keep raw) (split_lines out).
Proof.
  intros (chunks & tail & HF & Ht & ->) Hkeep Ha Hac Hh Hsplit Hna.
  pose proof (getlines_all_one_line text) as Hl.
  assert (Hc1 : In (keep raw) (List.concat chunks)).
  { rewrite Hsplit in HF. exact (framed_keeps_line _ _ _ _ _ _ _ HF Hna). }
  assert (Hc2 : Forall one_line (List.concat chunks)).
  { exact (framed_one_line _ _ _ _ _ HF Hkeep Ha Hac Hl). }
  rewrite split_emit_lines.
  - apply in_app_iff. left. exact Hc1.
  - intros E. apply app_eq_nil in E. destruct E as [E _].
    rewrite E in Hc1. exact Hc1.
  - apply Forall_app. split; [exact Hc2|].
    destruct Ht; repeat constructor; auto.
Qed.


(** The empty line that ends a text makes the loop put a bare terminator in
    the buffer. *)
Lemma set_field_body_empty_line (v : str) (st : rewrite_state) :
  body v st [] = Continue {| found_mode := found_mode st;
                             current_section := current_section st;
                             oss := oss st ++ [LF] |}.
Proof. reflexivity. Qed.

(** C9.  A text that ends with a line terminator, [c] followed by ['\n'],
    is read as the lines of [c] and then one empty line, and for that last
    line the loop adds a bare terminator to the buffer.  When the loop ends
    in mode [SECTION_MATCH], the text stored is therefore the buffer of the
    lines of [c], whose last entry is the last line of [c], trimmed, then an
    empty line, then the new assignment. *)
Theorem C9_trailing_terminator_yields_an_empty_line
    (v c : str) (st : rewrite_state) :
  for_lines (body v) rewrite_init (split_lines c) = Continue st ->
  getlines (c ++ [LF]) = split_lines c ++ [[]]
  /\ for_lines (body v) rewrite_init (getlines (c ++ [LF]))
     = Continue {| found_mode := found_mode st;
                   current_section := current_section st;
                   oss := oss st ++ [LF] |}
  /\ (found_mode st = SECTION_MATCH ->
      exists before,
        oss st = emit_lines (before ++ [trim (last (split_lines c) [])])
        /\ rewrite ini target_section target_field v (c ++ [LF])
           = Some (emit_lines (before ++ [trim (last (split_lines c) [])])
                   ++ LF :: assignment ini target_field v)).
Proof.
  intros H.
  assert (Hloop : for_lines (body v) rewrite_init (getlines (c ++ [LF]))
                  = Continue {| found_mode := found_mode st;
                                current_section := current_section st;
                                oss := oss st ++ [LF] |}).
  { rewrite getlines_trailing_LF, for_lines_app, H. reflexivity. }
  split; [apply getlines_trailing_LF|]. split; [exact Hloop|].
  intros Hm.
  destruct (for_lines_emits _ _ _ _ H) as (chunks & _ & Hos & Hlast).
  destruct (Hlast Hm (split_lines_not_nil c)) as (before & Hbefore).
  simpl in Hos. rewrite Hbefore in Hos.
  exists before. split; [exact Hos|].
  unfold rewrite. rewrite Hloop. unfold set_field_finish. simpl.
  rewrite Hm, <- Hos. f_equal. unfold pop_back.
  replace ((oss st ++ [LF]) ++ assignment ini target_field v ++ [LF])
    with ((oss st ++ LF :: assignment ini target_field v) ++ [LF])
    by (repeat rewrite <- app_assoc; reflexivity).
  apply removelast_last.
Qed.

(** *** Where a new field goes *)

Lemma for_lines_app_inv {S R} (f : S -> str -> flow S R) (xs ys : list str)
    (st st' : S) :
  for_lines f st (xs ++ ys) = Continue st' ->
  exists s1, for_lines f st xs = Continue s1
             /\ for_lines f s1 ys = Continue st'.
Proof.
  rewrite for_lines_app.
  destruct (for_lines f st xs) as [s1|]; [eauto | discriminate].
Qed.

(** Outside the target section, and with no header that opens it, the scan
    copies the lines, trimmed, and stays in its mode. *)
Lemma scan_other_sections (v : str) (lines : list str) :
  forall st st',
    current_section st <> target_section ->
    found_mode st <> SECTION_MATCH ->
    Forall (fun l => ~ names_section ini target_section l) lines ->
    for_lines (body v) st lines = Continue st' ->
    oss st' = oss st ++ emit_lines (map trim lines)
    /\ found_mode st' = found_mode st
    /\ current_section st' <> target_section.
Proof.
  induction lines as [|l ls IH]; simpl; intros st st' Hcs Hm Hl H.
  - inversion H; subst. rewrite app_nil_r. auto.
  - inversion Hl as [|? ? Hl1 Hl2]; subst.
    destruct (body v st l) as [s1|] eqn:Hs; [|discriminate].
    assert (E : oss s1 = oss st ++ trim l ++ [LF]
                /\ found_mode s1 = found_mode st
                /\ current_section s1 <> target_section).
    { revert Hs. unfold set_field_body.
      destruct (is_ignore_line ini (trim l)) eqn:Hi.
      { intros E; inversion E; subst; simpl; auto. }
      destruct (starts_with_bracket (trim l)) eqn:Hb.
      - destruct (find (trim l) (lit "]")) as [pos|] eqn:Hf; [|discriminate].
        destruct (pos =? 1) eqn:Hp; [discriminate|].
        destruct (Str.eqb (substr (trim l) 1 (pos - 1)) target_section)
          eqn:Hs.
        { exfalso. apply Hl1. apply str_eqb_eq in Hs.
          split; [exact Hi|]. split; [exact Hb|]. exists pos. auto. }
        apply str_eqb_neq in Hs.
        destruct (found_mode st); simpl; try congruence;
          intros E; inversion E; subst; simpl; auto.
      - destruct (Str.eqb (current_section st) []); [discriminate|].
        destruct (find_char (trim l) (field_separator_ ini)); [|discriminate].
        apply str_eqb_neq in Hcs. rewrite Hcs. simpl.
        intros E; inversion E; subst; simpl. apply str_eqb_neq in Hcs. auto. }
    destruct E as (Ho & Hm1 & Hc1).
    destruct (IH s1 st' Hc1 ltac:(congruence) Hl2 H) as (Ho' & Hm' & Hc').
    rewrite Ho', Ho. repeat rewrite <- app_assoc. simpl.
    split; [reflexivity|]. split; [congruence | exact Hc'].
Qed.

(** Inside the target section, over comments, blank lines and assignments
    of other fields, the scan copies the lines, trimmed, and stays put. *)
Lemma scan_inside_section (v : str) (lines : list str) :
  forall st,
    current_section st = target_section ->
    target_section <> [] ->
    Forall (section_line ini target_field) lines ->
    exists st',
      for_lines (body v) st lines = Continue st'
      /\ oss st' = oss st ++ emit_lines (map trim lines)
      /\ found_mode st' = found_mode st
      /\ current_section st' = target_section.
Proof.
  induction lines as [|l ls IH]; simpl; intros st Hcs Hne Hl.
  - exists st. rewrite app_nil_r. auto.
  - apply Forall_cons_iff in Hl. destruct Hl as [Hl1 Hl2].
    assert (E : body v st l
                = Continue {| found_mode := found_mode st;
                              current_section := current_section st;
                              oss := oss st ++ trim l ++ [LF] |}).
    { unfold set_field_body.
      destruct Hl1 as [Hi | (name & Hn & value & Hi & Hb & pos & Hp & Hf & _)].
      - rewrite Hi. reflexivity.
      - rewrite Hi, Hb, Hp, Hf, Hcs.
        apply str_eqb_neq in Hne. rewrite Hne.
        apply str_eqb_neq in Hn. rewrite Hn, andb_false_r. reflexivity. }
    rewrite E.
    destruct (IH {| found_mode := found_mode st;
                    current_section := current_section st;
                    oss := oss st ++ trim l ++ [LF] |} Hcs Hne Hl2)
      as (st' & Hf & Ho & Hm & Hc).
    exists st'. split; [exact Hf|]. simpl in *.
    rewrite Ho. repeat rewrite <- app_assoc. simpl. auto.
Qed.

(** The scan on a header. *)
Lemma scan_header (v sec raw : str) (st : rewrite_state) :
  names_section ini sec raw ->
  body v st raw
  = if Str.eqb sec target_section then
      Continue {| found_mode := SECTION_MATCH;
                  current_section := sec;
                  oss := oss st ++ trim raw ++ [LF] |}
    else if FoundMode_eqb (found_mode st) SECTION_MATCH then
      Continue {| found_mode := BOTH_MATCH;
                  current_section := sec;
                  oss := oss st ++ (assignment ini target_field v
                                    ++ LF :: trim raw) ++ [LF] |}
    else
      Continue {| found_mode := found_mode st;
                  current_section := sec;
                  oss := oss st ++ trim raw ++ [LF] |}.
Proof.
  intros (Hi & Hb & pos & Hf & Hp & Hs).
  unfold set_field_body. rewrite Hi, Hb, Hf, Hp, Hs.
  destruct (Str.eqb sec target_section); [reflexivity|].
  destruct (FoundMode_eqb (found_mode st) SECTION_MATCH); reflexivity.
Qed.

Lemma starts_with_length (p s : str) :
  starts_with p s = true -> List.length p <= List.length s.
Proof.
  revert s. induction p as [|x p IH]; intros [|y s]; simpl;
    try (intros; lia); try discriminate.
  intros H. apply andb_true_iff in H. destruct H as [_ H].
  apply IH in H. lia.
Qed.

Lemma find_bound (p s : str) :
  forall pos, find s p = Some pos ->
              pos + List.length p <= List.length s.
Proof.
  induction s as [|x s IH]; intros pos; cbn [find].
  - destruct (starts_with p []) eqn:E; [|discriminate].
    intros H. inversion H. apply starts_with_length in E. simpl in *. lia.
  - destruct (starts_with p (x :: s)) eqn:E.
    + intros H. inversion H. apply starts_with_length in E. simpl in *. lia.
    + destruct (find s p) as [q|]; [|discriminate].
      intros H. inversion H. specialize (IH q eq_refl). simpl. lia.
Qed.

Lemma find_at_head (p s : str) :
  find s p = Some 0 -> starts_with p s = true.
Proof.
  destruct s as [|x s]; cbn [find].
  - destruct (starts_with p []); [reflexivity | discriminate].
  - destruct (starts_with p (x :: s)); [reflexivity|].
    destruct (find s p); discriminate.
Qed.

Lemma names_section_not_empty (sec raw : str) :
  names_section ini sec raw -> sec <> [].
Proof.
  intros (_ & Hb & pos & Hf & Hp & Hs) E. subst sec.
  apply Nat.eqb_neq in Hp.
  pose proof (find_bound _ _ _ Hf) as Hlen.
  destruct (trim raw) as [|c t]; [discriminate|].
  assert (H0 : pos <> 0).
  { intros ->. apply find_at_head in Hf. simpl in Hb.
    apply Ascii.eqb_eq in Hb. subst c. discriminate. }
  change (List.length (lit "]")) with 1 in Hlen. simpl in Hlen.
  unfold substr in E. cbn [skipn] in E.
  destruct pos as [|[|q]]; try congruence.
  destruct t as [|d t]; [simpl in Hlen; lia|].
  discriminate.
Qed.

(** X14.  The placement of a new field.  Let the document hold one header
    of the target section, after the lines [pre], and let no line of that
    section
    ([inner]: comments, blank lines, assignments of other fields) assign the
    target field.  If another header follows the section, a write that
    succeeds stores the lines of the document, trimmed, with the new
    assignment as one more line just before that header; if the section is
    the last one, with the new assignment as one more line at the end. *)
Theorem new_field_goes_to_the_end_of_its_section
    (v text out : str) (pre inner rest : list str) (hA hB secB : str) :
  Forall (fun l => ~ names_section ini target_section l) pre ->
  names_section ini target_section hA ->
  Forall (section_line ini target_field) inner ->
  names_section ini secB hB -> secB <> target_section ->
  Forall (fun l => ~ names_section ini target_section l) rest ->
  rewrite ini target_section target_field v text = Some out ->
  (getlines text = pre ++ hA :: inner ++ hB :: rest ->
   out = pop_back (emit_lines
           (map trim pre ++ trim hA :: map trim inner
            ++ assignment ini target_field v :: trim hB :: map trim rest)))
  /\ (getlines text = pre ++ hA :: inner ->
      out = pop_back (emit_lines
              (map trim pre ++ trim hA :: map trim inner
               ++ [assignment ini target_field v]))).
Proof.
  intros Hpre HA Hinner HB Hsec Hrest. unfold rewrite.
  destruct (for_lines (body v) rewrite_init (getlines text)) as [st|] eqn:H;
    [|discriminate].
  intros E; inversion E; subst; clear E.
  pose proof (names_section_not_empty _ _ HA) as Hne.
  assert (P : forall tail, getlines text = pre ++ hA :: tail ->
            exists s2,
              for_lines (body v) s2 tail = Continue st
              /\ found_mode s2 = SECTION_MATCH
              /\ current_section s2 = target_section
              /\ oss s2 = emit_lines (map trim pre ++ [trim hA])).
  { intros tail Hdoc. rewrite Hdoc in H.
    apply for_lines_app_inv in H. destruct H as (s1 & H1 & H2).
    destruct (scan_other_sections v pre rewrite_init s1) as (Ho1 & _ & _);
      simpl; auto; try discriminate.
    simpl in H2. rewrite (scan_header v _ _ s1 HA), str_eqb_refl in H2.
    simpl in Ho1.
    exists {| found_mode := SECTION_MATCH;
              current_section := target_section;
              oss := oss s1 ++ trim hA ++ [LF] |}.
    split; [exact H2|]. split; [reflexivity|]. split; [reflexivity|].
    simpl. rewrite Ho1, emit_lines_app. reflexivity. }
  split; intros Hdoc.
  - destruct (P _ Hdoc) as (s2 & H2 & Hm2 & Hc2 & Ho2).
    destruct (scan_inside_section v inner s2 Hc2 Hne Hinner)
      as (s3 & H3 & Ho3 & Hm3 & Hc3).
    rewrite for_lines_app, H3 in H2.
    simpl in H2. rewrite (scan_header v _ _ s3 HB) in H2.
    apply str_eqb_neq in Hsec. rewrite Hsec, Hm3, Hm2 in H2. simpl in H2.
    apply scan_other_sections in H2;
      [|simpl; apply str_eqb_neq, Hsec | simpl; discriminate | exact Hrest].
    destruct H2 as (Ho & Hm & _).
    simpl in Ho, Hm. unfold set_field_finish. rewrite Hm, Ho, Ho3, Ho2.
    f_equal. rewrite !emit_lines_app. simpl. rewrite emit_lines_app. simpl.
    repeat rewrite <- app_assoc. simpl. repeat rewrite <- app_assoc.
    reflexivity.
  - destruct (P _ Hdoc) as (s2 & H2 & Hm2 & Hc2 & Ho2).
    destruct (scan_inside_section v inner s2 Hc2 Hne Hinner)
      as (s3 & H3 & Ho3 & Hm3 & Hc3).
    rewrite H3 in H2. inversion H2; subst s3; clear H2.
    unfold set_field_finish. rewrite Hm3, Hm2, Ho3, Ho2. f_equal.
    rewrite !emit_lines_app. simpl. rewrite emit_lines_app. simpl.
    repeat rewrite <- app_assoc. simpl. reflexivity.
Qed.

(** *** Reading back what was written *)

Section ReadBack.

Variable v : str.
Hypothesis Hheader : readable_header ini target_section.
Hypothesis Hassign : readable_assignment ini target_field v.

Local Abbreviation reading :=
  (for_lines (try_get_field_body ini target_section target_field)).

Lemma find_one_char (a b : str) (c : ascii) :
  ~ In c a -> find (a ++ c :: b) [c] = Some (List.length a).
Proof.
  induction a as [|x a IH]; simpl; intros H.
  - rewrite Ascii.eqb_refl. reflexivity.
  - destruct (Ascii.eqb_spec c x) as [->|_]; [tauto|]. simpl.
    rewrite IH by tauto. reflexivity.
Qed.

Lemma find_char_first (a b : str) (c : ascii) :
  ~ In c a -> find_char (a ++ c :: b) c = Some (List.length a).
Proof.
  induction a as [|x a IH]; simpl; intros H.
  - rewrite Ascii.eqb_refl. reflexivity.
  - destruct (Ascii.eqb_spec x c) as [->|_]; [tauto|].
    rewrite IH by tauto. reflexivity.
Qed.

Lemma trim_header : trim (header_of target_section) = header_of target_section.
Proof.
  rewrite trim_strip. unfold header_of.
  change ("["%char :: target_section ++ ["]"%char])
    with (("["%char :: target_section) ++ ["]"%char]).
  rewrite strip_back_app by (discriminate || reflexivity).
  reflexivity.
Qed.

(** The reader takes the header that was written for the target section. *)
Lemma read_header (cs : str) :
  try_get_field_body ini target_section target_field cs
    (header_of target_section) = Continue target_section.
Proof.
  destruct Hheader as (Hne & Hbr & _ & Hig).
  unfold try_get_field_body. rewrite trim_header, Hig.
  unfold header_of at 1. cbn [starts_with_bracket].
  rewrite Ascii.eqb_refl.
  assert (F : find (header_of target_section) (lit "]")
              = Some (S (List.length target_section))).
  { unfold header_of. change (lit "]") with ["]"%char].
    change ("["%char :: target_section ++ ["]"%char])
      with (("["%char :: target_section) ++ "]"%char :: []).
    rewrite find_one_char; [reflexivity|].
    simpl. intros [E|E]; [discriminate | tauto]. }
  rewrite F.
  destruct target_section as [|x t] eqn:E; [congruence|].
  cbn [List.length Nat.eqb]. f_equal.
  unfold substr, header_of. cbn [skipn Nat.sub].
  change (S (List.length t)) with (List.length (x :: t)).
  rewrite firstn_app, Nat.sub_diag, firstn_all. simpl.
  rewrite app_nil_r. reflexivity.
Qed.

(** In the target section, the reader returns the value of the assignment
    that was written. *)
Lemma read_assignment :
  try_get_field_body ini target_section target_field target_section
    (assignment ini target_field v) = Return (Some v).
Proof.
  destruct Hheader as (Hne & _).
  destruct Hassign as (Hf & _ & Hsep & Hv & Htv & _ & Htl & Hig & Hbr).
  unfold try_get_field_body. rewrite Htl, Hig, Hbr.
  destruct (Str.eqb target_section []) eqn:E;
    [apply str_eqb_eq in E; congruence|].
  unfold assignment at 1. rewrite find_char_first by exact Hsep.
  unfold substr, substr_from, assignment. cbn [skipn].
  rewrite firstn_app, Nat.sub_diag, firstn_all. simpl firstn.
  rewrite app_nil_r, Hf, !str_eqb_refl. cbn [andb].
  rewrite Nat.add_1_r.
  change (target_field ++ field_separator_ ini :: v)
    with (target_field ++ [field_separator_ ini] ++ v).
  rewrite app_assoc.
  replace (S (List.length target_field))
    with (List.length (target_field ++ [field_separator_ ini]))
    by (rewrite length_app; simpl; lia).
  rewrite skipn_app, Nat.sub_diag, skipn_all. simpl.
  rewrite Htv. destruct v; [congruence | reflexivity].
Qed.

Local Abbreviation read_so_far :=
  (read_back_so_far ini target_section target_field v).

Lemma emitted_one_line (raw : str) (chunk : list str) :
  one_line raw ->
  emitted_as trim ini target_field v raw chunk ->
  Forall one_line chunk.
Proof.
  destruct Hassign as (_ & Hc & _ & _ & _ & Hl & _).
  intros Hraw [ | _ | _ ].
  - constructor; [apply trim_one_line, Hraw | constructor].
  - rewrite Hc. constructor; [exact Hl | constructor].
  - constructor; [exact Hl|].
    constructor; [apply trim_one_line, Hraw | constructor].
Qed.

Lemma emitted_all_one_line (lines : list str) (chunks : list (list str)) :
  Forall one_line lines ->
  Forall2 (emitted_as trim ini target_field v) lines chunks ->
  Forall one_line (List.concat chunks).
Proof.
  intros Hl H. induction H as [|raw chunk lines chunks Hc _ IH]; simpl.
  - constructor.
  - inversion Hl; subst. apply Forall_app. split.
    + eapply emitted_one_line; eauto.
    + apply IH. assumption.
Qed.

(** One iteration of the rewrite scan, and the reader on what it wrote. *)
Lemma set_field_body_read_back (st st' : rewrite_state) (raw : str) :
  body v st raw = Continue st' ->
  found_mode st <> BOTH_MATCH ->
  (found_mode st = SECTION_MATCH -> current_section st = target_section) ->
  exists chunk,
    emitted_as trim ini target_field v raw chunk
    /\ oss st' = oss st ++ emit_lines chunk
    /\ read_so_far (current_section st) chunk st'.
Proof.
  destruct Hassign as (_ & Hcstr & _).
  unfold set_field_body, read_back_so_far. intros H Hmode Hinv.
  destruct (is_ignore_line ini (trim raw)) eqn:Hi.
  { inversion H; subst; clear H. exists [trim raw]. simpl.
    split; [constructor|]. split; [reflexivity|]. right.
    split; [exact Hmode|]. split; [exact Hinv|]. intros rest.
    unfold try_get_field_body. rewrite trim_idem, Hi. reflexivity. }
  destruct (starts_with_bracket (trim raw)) eqn:Hb.
  - destruct (find (trim raw) (lit "]")) as [pos|] eqn:Hf; [|discriminate].
    destruct (pos =? 1) eqn:Hp; [discriminate|].
    destruct (Str.eqb (substr (trim raw) 1 (pos - 1)) target_section) eqn:Hs.
    { inversion H; subst; clear H. exists [trim raw]. simpl.
      split; [constructor|]. split; [reflexivity|]. right.
      split; [discriminate|]. split; [intros _; apply str_eqb_eq, Hs|].
      intros rest. unfold try_get_field_body.
      rewrite trim_idem, Hi, Hb, Hf, Hp. reflexivity. }
    destruct (found_mode st) eqn:Hfm; simpl in H;
      inversion H; subst; clear H.
    + exists [trim raw]. simpl.
      split; [constructor|]. split; [reflexivity|]. right.
      split; [discriminate|]. split; [discriminate|].
      intros rest. unfold try_get_field_body.
      rewrite trim_idem, Hi, Hb, Hf, Hp. reflexivity.
    + exists [assignment ini target_field v; trim raw]. simpl.
      split; [apply Preceded, Hb|].
      split; [rewrite <- !app_assoc; reflexivity|]. left.
      intros rest. rewrite (Hinv eq_refl), read_assignment. reflexivity.
    + congruence.
  - destruct (Str.eqb (current_section st) []) eqn:Hcs; [discriminate|].
    destruct (find_char (trim raw) (field_separator_ ini)) as [pos|] eqn:Hp;
      [|discriminate].
    destruct (Str.eqb (current_section st) target_section
              && Str.eqb (trim (substr (trim raw) 0 pos)) target_field)
      eqn:Hm; inversion H; subst; clear H.
    + exists [assignment ini (c_str target_field) v]. simpl.
      apply andb_true_iff in Hm. destruct Hm as [Hm1 Hm2].
      apply str_eqb_eq in Hm1, Hm2.
      split.
      { apply Replaced. exists (trim (substr_from (trim raw) (pos + 1))).
        split; [exact Hi|]. split; [exact Hb|]. exists pos. auto. }
      split; [reflexivity|]. left.
      intros rest. rewrite Hcstr, Hm1, read_assignment. reflexivity.
    + exists [trim raw]. simpl.
      split; [constructor|]. split; [reflexivity|]. right.
      split; [exact Hmode|]. split; [exact Hinv|]. intros rest.
      unfold try_get_field_body.
      rewrite trim_idem, Hi, Hb, Hcs, Hp, Hm. reflexivity.
Qed.

(** The whole rewrite scan, and the reader on what it wrote. *)
Lemma for_lines_read_back (lines : list str) :
  forall st st',
    Forall one_line lines ->
    for_lines (body v) st lines = Continue st' ->
    found_mode st <> BOTH_MATCH ->
    (found_mode st = SECTION_MATCH -> current_section st = target_section) ->
    exists out,
      oss st' = oss st ++ emit_lines out
      /\ Forall one_line out
      /\ read_so_far (current_section st) out st'.
Proof.
  unfold read_back_so_far.
  induction lines as [|l ls IH]; simpl; intros st st' Hl H Hmode Hinv.
  - inversion H; subst. exists []. simpl. rewrite app_nil_r.
    split; [reflexivity|]. split; [constructor|]. right. auto.
  - inversion Hl as [|? ? Hl1 Hl2]; subst.
    destruct (body v st l) as [s1|] eqn:Hs; [|discriminate].
    destruct (set_field_body_read_back _ _ _ Hs Hmode Hinv)
      as (chunk & Hem & Ho & Hr).
    pose proof (emitted_one_line _ _ Hl1 Hem) as Hone.
    unfold read_back_so_far in Hr.
    destruct Hr as [Hr | (Hm1 & Hi1 & Hr)].
    + destruct (for_lines_emits _ _ _ _ H) as (chunks & Hcs & Hos & _).
      exists (chunk ++ List.concat chunks).
      split; [rewrite Hos, Ho, emit_lines_app, app_assoc; reflexivity|].
      split; [apply Forall_app; split;
              [exact Hone | exact (emitted_all_one_line ls chunks Hl2 Hcs)]|].
      left. intros rest. rewrite <- app_assoc. apply Hr.
    + destruct (IH _ _ Hl2 H Hm1 Hi1) as (out & Hos & Hout & Hr').
      exists (chunk ++ out).
      split; [rewrite Hos, Ho, emit_lines_app, app_assoc; reflexivity|].
      split; [apply Forall_app; split; assumption|].
      destruct Hr' as [Hr' | (Hm2 & Hi2 & Hr')].
      * left. intros rest. rewrite <- app_assoc, Hr. apply Hr'.
      * right. split; [exact Hm2|]. split; [exact Hi2|].
        intros rest. rewrite <- app_assoc, Hr. apply Hr'.
Qed.

(** The lookup of the target in the text a write stores finds the text
    written. *)
Lemma rewrite_then_lookup (text out : str) :
  rewrite ini target_section target_field v text = Some out ->
  lookup ini target_section target_field out = Some v.
Proof.
  unfold rewrite.
  destruct (for_lines (body v) rewrite_init (getlines text)) as [st|] eqn:H;
    [|discriminate].
  intros E; inversion E; subst; clear E.
  destruct (for_lines_read_back _ _ _ (getlines_all_one_line text) H)
    as (O & Hos & Hone & Hr); [discriminate | discriminate |].
  simpl in Hos. unfold read_back_so_far in Hr.
  destruct Hheader as (_ & _ & Hsec1 & _).
  destruct Hassign as (_ & _ & _ & _ & _ & Hasg1 & _).
  assert (Hhdr1 : one_line (header_of target_section)).
  { unfold one_line, header_of. simpl. rewrite in_app_iff. simpl.
    intros [E|[E|[E|[]]]]; try discriminate. exact (Hsec1 E). }
  assert (T : exists all,
             set_field_finish ini target_section target_field v st
             = emit_lines all
             /\ Forall one_line all
             /\ reading [] all = Return (Some v)).
  { unfold set_field_finish. rewrite Hos.
    destruct Hr as [Hr | (Hm & Hi & Hr)].
    - destruct (found_mode st).
      + exists (O ++ [header_of target_section;
                      assignment ini target_field v]).
        split; [rewrite emit_lines_app; simpl; unfold header_of;
                f_equal; simpl; f_equal;
                repeat rewrite <- app_assoc; reflexivity|].
        split; [apply Forall_app; split; [exact Hone|]; repeat constructor;
                assumption|].
        apply Hr.
      + exists (O ++ [assignment ini target_field v]).
        split; [rewrite emit_lines_app; reflexivity|].
        split; [apply Forall_app; split; [exact Hone|]; repeat constructor;
                assumption|].
        apply Hr.
      + exists O. split; [reflexivity|]. split; [exact Hone|].
        rewrite <- (app_nil_r O). apply Hr.
    - destruct (found_mode st) eqn:Hfm.
      + exists (O ++ [header_of target_section;
                      assignment ini target_field v]).
        split; [rewrite emit_lines_app; simpl; unfold header_of;
                f_equal; simpl; f_equal;
                repeat rewrite <- app_assoc; reflexivity|].
        split; [apply Forall_app; split; [exact Hone|]; repeat constructor;
                assumption|].
        rewrite Hr. simpl. rewrite read_header, read_assignment. reflexivity.
      + exists (O ++ [assignment ini target_field v]).
        split; [rewrite emit_lines_app; reflexivity|].
        split; [apply Forall_app; split; [exact Hone|]; repeat constructor;
                assumption|].
        rewrite Hr, (Hi eq_refl). simpl. rewrite read_assignment. reflexivity.
      + congruence. }
  destruct T as (all & -> & Hall & Hread).
  assert (Hne : all <> []) by (intros ->; discriminate).
  pose proof (split_emit_lines _ Hne Hall) as Hsplit.
  unfold lookup, getlines.
  destruct (pop_back (emit_lines all)) as [|c0 t0] eqn:Eout.
  - simpl in Hsplit. subst all. discriminate.
  - rewrite Hsplit, Hread. reflexivity.
Qed.

End ReadBack.

(** What a successful [set_field] leaves on the disk is what the lookup of
    the same target then loads, and the lookup finds the text written. *)
Lemma set_field_then_lookup (v : str) (fs fs' : file_system) :
  readable_header ini target_section ->
  readable_assignment ini target_field v ->
  set_field ini target_section target_field v fs = (true, fs') ->
  lookup ini target_section target_field (loaded ini fs') = Some v.
Proof.
  intros Hh Ha. rewrite set_field_run.
  destruct (rewrite ini target_section target_field v (loaded ini fs))
    as [out|] eqn:H; [|discriminate].
  unfold spit. destruct (can_open_for_writing fs (file_path_ ini));
    [|discriminate].
  intros E; inversion E; subst; clear E.
  unfold loaded, slurp, overwrite. simpl. rewrite str_eqb_refl. simpl.
  exact (rewrite_then_lookup v Hh Ha _ _ H).
Qed.

Lemma int_to_text_not_nil (z : Z) : int_to_text z <> [].
Proof.
  unfold int_to_text. destruct (z <? 0)%Z; [discriminate|].
  apply (decimal_not_nil 9 z).
Qed.

(** [std::stod], for the reader of what [write_double] wrote. *)
Variable stod : str -> option double.

(** C7, amended.  For a section name and a field name that can be read back
    from the lines [set_field] writes for them, a write that succeeds is
    read back by the reader of the same type: [write_bool] and [read_bool]
    for both truth values, [write_int] and [read_int] for every [int],
    [write_double] and [read_double] for every [double] that [std::stod]
    reads back from the text [ss << value] prints for it, [write_str] and
    [read_str] for every text that is trimmed, not empty and one line.  The
    default plays no part. *)
Theorem C7_write_then_read_returns_the_value (fs : file_system) :
  readable_header ini target_section ->
  (forall (b d : bool) fs',
     readable_assignment ini target_field
       (if b then lit "true" else lit "false") ->
     write_bool ini target_section target_field b fs = (true, fs') ->
     read_bool ini target_section target_field d fs' = (b, fs'))
  /\ (forall (z d : Z) fs',
        (INT_MIN <= z <= INT_MAX)%Z ->
        readable_assignment ini target_field (int_to_text z) ->
        write_int ini target_section target_field z fs = (true, fs') ->
        read_int ini target_section target_field d fs' = (z, fs'))
  /\ (forall (x d : double) fs',
        stod (double_to_text x) = Some x ->
        readable_assignment ini target_field (double_to_text x) ->
        write_double double double_to_text ini target_section target_field x
          fs = (true, fs') ->
        read_double double stod ini target_section target_field d fs'
        = (x, fs'))
  /\ (forall (v d : str) fs',
        readable_assignment ini target_field v ->
        write_str ini target_section target_field v fs = (true, fs') ->
        read_str ini target_section target_field d fs' = (v, fs')).
Proof.
  intros Hh. split; [|split; [|split]].
  - intros b d fs' Ha Hw.
    pose proof (set_field_then_lookup _ _ _ Hh Ha Hw) as Hl.
    unfold read_bool, bind. rewrite try_get_field_run, Hl.
    destruct b; reflexivity.
  - intros z d fs' Hz Ha Hw.
    pose proof (set_field_then_lookup _ _ _ Hh Ha Hw) as Hl.
    unfold read_int, bind. rewrite try_get_field_run, Hl.
    destruct (strtol_int_to_text z Hz) as [Hs Hc].
    unfold is_convertable_to_long, consumed_whole, stol.
    rewrite Hs, Hc. cbn [strtol_end strtol_erange strtol_value].
    rewrite Nat.eqb_refl. cbn [negb].
    destruct (List.length (int_to_text z)) eqn:El.
    { apply length_zero_iff_nil in El.
      exfalso. exact (int_to_text_not_nil z El). }
    rewrite long_to_int_id by exact Hz. reflexivity.
  - intros x d fs' Hx Ha Hw.
    pose proof (set_field_then_lookup _ _ _ Hh Ha Hw) as Hl.
    unfold read_double, bind. rewrite try_get_field_run, Hl, Hx.
    reflexivity.
  - intros v d fs' Ha Hw.
    pose proof (set_field_then_lookup _ _ _ Hh Ha Hw) as Hl.
    unfold read_str, bind. rewrite try_get_field_run, Hl. reflexivity.
Qed.

End WritePath.

(** ** Trimming, seen from outside *)

Section TrimProperties.

Lemma strip_back_cut (s : str) :
  exists b, s = strip_back s ++ b
            /\ Forall (fun c => is_whitespace c = true) b.
Proof.
  induction s as [|c s (b & Hs & Hb)]; simpl.
  - exists []. split; [reflexivity | constructor].
  - destruct (strip_back s) as [|d t] eqn:E.
    + simpl in Hs. subst s. destruct (is_whitespace c) eqn:W.
      * exists (c :: b). split; [reflexivity | constructor; assumption].
      * exists b. split; [reflexivity | assumption].
    + exists b. split; [rewrite Hs at 1; reflexivity | assumption].
Qed.

Lemma strip_front_cut (s : str) :
  exists a, s = a ++ strip_front s
            /\ Forall (fun c => is_whitespace c = true) a.
Proof.
  induction s as [|c s (a & Hs & Ha)]; simpl.
  - exists []. split; [reflexivity | constructor].
  - destruct (is_whitespace c) eqn:W.
    + exists (c :: a). split; [simpl; rewrite <- Hs; reflexivity|].
      constructor; assumption.
    + exists []. split; [reflexivity | constructor].
Qed.

Lemma strip_back_last (s : str) (d : ascii) :
  strip_back s <> [] -> is_whitespace (last (strip_back s) d) = false.
Proof.
  induction s as [|c s IH]; simpl; [congruence|].
  destruct (strip_back s) as [|x t] eqn:E.
  - destruct (is_whitespace c) eqn:W; [congruence | intros _; exact W].
  - intros _. apply IH. discriminate.
Qed.

Lemma strip_front_head (s : str) (c : ascii) (t : str) :
  strip_front s = c :: t -> is_whitespace c = false.
Proof.
  induction s as [|x s IH]; simpl; [discriminate|].
  destruct (is_whitespace x) eqn:W; [exact IH|].
  intros E. inversion E; subst. exact W.
Qed.

Lemma strip_front_last (s : str) (d : ascii) :
  strip_front s <> [] -> last (strip_front s) d = last s d.
Proof.
  induction s as [|x s IH]; simpl; [congruence|].
  destruct (is_whitespace x); [|reflexivity].
  intros H. rewrite IH by exact H.
  destruct s; [simpl in H; congruence | reflexivity].
Qed.

Lemma strip_back_plain (s : str) :
  Forall (fun c => is_whitespace c = false) s -> strip_back s = s.
Proof.
  induction 1 as [|c s Hc _ IH]; simpl; [reflexivity|].
  rewrite IH, Hc. destruct s; reflexivity.
Qed.

(** X1.  [trim] removes whitespace and nothing else: the string is its
    trimmed form between two runs of whitespace, and the trimmed form, when
    it is not empty, begins and ends with a character that is not
    whitespace. *)
Theorem X1_trim_removes_the_surrounding_whitespace_only (s : str) :
  (exists a b,
     s = a ++ trim s ++ b
     /\ Forall (fun c => is_whitespace c = true) a
     /\ Forall (fun c => is_whitespace c = true) b)
  /\ (forall c t, trim s = c :: t ->
        is_whitespace c = false /\ is_whitespace (last (c :: t) c) = false).
Proof.
  rewrite trim_strip. split.
  - destruct (strip_back_cut s) as (b & Hs & Hb).
    destruct (strip_front_cut (strip_back s)) as (a & Ht & Ha).
    exists a, b. split; [|split; assumption].
    rewrite app_assoc, <- Ht. exact Hs.
  - intros c t E. split; [exact (strip_front_head _ _ _ E)|].
    rewrite <- E, strip_front_last by (rewrite E; discriminate).
    apply strip_back_last. intros N. rewrite N in E. discriminate.
Qed.

(** X2.  Trimming twice is trimming once. *)
Theorem X2_trim_is_idempotent (s : str) : trim (trim s) = trim s.
Proof. apply trim_idem. Qed.

End TrimProperties.

(** ** The read path, further *)

Section ReadProperties.

Variable ini : Ini.

Lemma try_get_field_body_trimmed (ts tf cs raw : str) :
  try_get_field_body ini ts tf cs (trim raw)
  = try_get_field_body ini ts tf cs raw.
Proof. unfold try_get_field_body. rewrite trim_idem. reflexivity. Qed.

Lemma set_field_body_trimmed (ts tf v : str) (st : rewrite_state)
    (raw : str) :
  set_field_body ini ts tf v st (trim raw) = set_field_body ini ts tf v st raw.
Proof. unfold set_field_body. rewrite trim_idem. reflexivity. Qed.

Lemma for_lines_trimmed {S R} (f : S -> str -> flow S R) (lines : list str) :
  (forall st raw, f st (trim raw) = f st raw) ->
  forall st, for_lines f st (map trim lines) = for_lines f st lines.
Proof.
  intros Hf. induction lines as [|l ls IH]; intros st; simpl; [reflexivity|].
  rewrite Hf. destruct (f st l); [apply IH | reflexivity].
Qed.

(** X3.  First match wins.  Let the document be the lines [pre], then [l],
    then [post], where the scan gets through [pre] without returning and is
    then in the section [sec], and [l] assigns the value [v], not empty, to
    the field [fld].  Then the lookup of [fld] in [sec] returns [v], and so
    does [read_str], whatever [post] holds. *)
Theorem X3_first_match_is_returned
    (sec fld v : str) (fs : file_system) (pre post : list str) (l : str) :
  getlines (loaded ini fs) = pre ++ l :: post ->
  for_lines (try_get_field_body ini sec fld) [] pre = Continue sec ->
  sec <> [] -> v <> [] ->
  assigns_value ini fld v l ->
  lookup ini sec fld (loaded ini fs) = Some v
  /\ forall d, read_str ini sec fld d fs = (v, fs).
Proof.
  intros Hdoc Hpre Hsec Hv (Hi & Hb & pos & Hpos & Hname & Hval).
  assert (H : lookup ini sec fld (loaded ini fs) = Some v).
  { eapply lookup_stops; eauto.
    unfold try_get_field_body. rewrite Hi, Hb, Hpos, Hname, Hval.
    apply str_eqb_neq in Hsec. rewrite Hsec, !str_eqb_refl. simpl.
    destruct v; [congruence | reflexivity]. }
  split; [exact H|]. intros d.
  unfold read_str, bind. rewrite try_get_field_run, H. reflexivity.
Qed.

(** X4.  Whitespace around a line does not count: two texts whose lines are
    the same once trimmed give the same lookup for every target and the
    same rewritten text for every write. *)
Theorem X4_whitespace_around_lines_is_not_significant (t1 t2 : str) :
  map trim (getlines t1) = map trim (getlines t2) ->
  forall ts tf,
    lookup ini ts tf t1 = lookup ini ts tf t2
    /\ forall v, rewrite ini ts tf v t1 = rewrite ini ts tf v t2.
Proof.
  intros H ts tf. split; [|intros v].
  - unfold lookup.
    rewrite <- (for_lines_trimmed (try_get_field_body ini ts tf)
                  (getlines t1)),
            <- (for_lines_trimmed (try_get_field_body ini ts tf)
                  (getlines t2)), H;
      auto using try_get_field_body_trimmed.
  - unfold rewrite.
    rewrite <- (for_lines_trimmed (set_field_body ini ts tf v)
                  (getlines t1)),
            <- (for_lines_trimmed (set_field_body ini ts tf v)
                  (getlines t2)), H;
      auto using set_field_body_trimmed.
Qed.

End ReadProperties.

(** ** The text of an [int] *)

Section IntText.

Local Open Scope Z_scope.

(** X5.  The text [write_int] prints for an [int] is a value the reader
    takes as it is: it is not empty and has no whitespace to trim,
    [is_convertable_to_long] accepts it, and [std::stol] followed by the
    conversion to [int] gives the number back. *)
Theorem X5_int_text_is_read_back (z : Z) :
  INT_MIN <= z <= INT_MAX ->
  int_to_text z <> []
  /\ trim (int_to_text z) = int_to_text z
  /\ is_convertable_to_long (int_to_text z) = true
  /\ option_map long_to_int (stol (int_to_text z)) = Some z.
Proof.
  intros Hz. pose proof (int_to_text_not_nil z) as Hne.
  destruct (strtol_int_to_text z Hz) as [Hs Hc].
  split; [exact Hne|]. split; [|split].
  - assert (P : Forall (fun c => is_whitespace c = false) (int_to_text z)).
    { unfold int_to_text. unfold INT_MIN, INT_MAX in Hz.
      destruct (z <? 0) eqn:E.
      - apply Z.ltb_lt in E. constructor; [reflexivity|].
        eapply Forall_impl; [|apply (decimal_digits 10 (- z)); lia].
        intros c Hd. apply digit_char_plain, Hd.
      - apply Z.ltb_ge in E.
        eapply Forall_impl; [|apply (decimal_digits 10 z); lia].
        intros c Hd. apply digit_char_plain, Hd. }
    rewrite trim_strip, strip_back_plain by exact P.
    destruct (int_to_text z) as [|c t]; [reflexivity|].
    inversion P as [|? ? Hw _]; subst. simpl. rewrite Hw. reflexivity.
  - unfold is_convertable_to_long, consumed_whole.
    rewrite Hs, Hc. cbn [strtol_end]. rewrite Nat.eqb_refl. reflexivity.
  - unfold stol. rewrite Hs. cbn [strtol_end strtol_erange strtol_value].
    destruct (List.length (int_to_text z)) eqn:El.
    { apply length_zero_iff_nil in El. congruence. }
    simpl. rewrite long_to_int_id by exact Hz. reflexivity.
Qed.

End IntText.

(** ** Absent targets and absent files *)

Section AbsentTargets.

Variable double : Type.
Variable stod : str -> option double.
Variable double_to_text : double -> str.

Variable ini : Ini.
Variables section_name field_name : str.

Local Abbreviation scanning :=
  (for_lines (try_get_field_body ini section_name field_name)).

(** The scan returns a value only on a line that assigns the field, met in
    the section. *)
Lemma try_get_field_body_found (cs raw v : str) :
  try_get_field_body ini section_name field_name cs raw = Return (Some v) ->
  cs = section_name /\ assigns ini field_name raw.
Proof.
  unfold try_get_field_body.
  destruct (is_ignore_line ini (trim raw)) eqn:Hi; [discriminate|].
  destruct (starts_with_bracket (trim raw)) eqn:Hb.
  - destruct (find (trim raw) (lit "]")) as [pos|]; [|discriminate].
    destruct (pos =? 1); discriminate.
  - destruct (Str.eqb cs []); [discriminate|].
    destruct (find_char (trim raw) (field_separator_ ini)) as [pos|] eqn:Hp;
      [|discriminate].
    destruct (Str.eqb cs section_name) eqn:Hs; [|discriminate].
    destruct (Str.eqb (trim (substr (trim raw) 0 pos)) field_name) eqn:Hf;
      [|discriminate].
    intros _. apply str_eqb_eq in Hs, Hf. split; [exact Hs|].
    exists (trim (substr_from (trim raw) (pos + 1))).
    split; [exact Hi|]. split; [exact Hb|]. exists pos. auto.
Qed.

(** The section the scan moves to is the one a header names. *)
Lemma try_get_field_body_moves (cs raw cs' : str) :
  try_get_field_body ini section_name field_name cs raw = Continue cs' ->
  cs' = cs \/ names_section ini cs' raw.
Proof.
  unfold try_get_field_body.
  destruct (is_ignore_line ini (trim raw)) eqn:Hi.
  { intros E; inversion E; auto. }
  destruct (starts_with_bracket (trim raw)) eqn:Hb.
  - destruct (find (trim raw) (lit "]")) as [pos|] eqn:Hf; [|discriminate].
    destruct (pos =? 1) eqn:Hp; [discriminate|].
    intros E; inversion E. right.
    split; [exact Hi|]. split; [exact Hb|]. exists pos. auto.
  - destruct (Str.eqb cs []); [discriminate|].
    destruct (find_char (trim raw) (field_separator_ ini)); [|discriminate].
    destruct (_ && _); [discriminate|]. intros E; inversion E; auto.
Qed.

Lemma try_get_field_body_at_start (raw v : str) :
  try_get_field_body ini section_name field_name [] raw <> Return (Some v).
Proof.
  unfold try_get_field_body.
  destruct (is_ignore_line ini (trim raw)); [discriminate|].
  destruct (starts_with_bracket (trim raw)).
  - destruct (find (trim raw) (lit "]")) as [pos|]; [|discriminate].
    destruct (pos =? 1); discriminate.
  - discriminate.
Qed.

Lemma scanning_without_the_section (lines : list str) :
  Forall (fun l => ~ names_section ini section_name l) lines ->
  forall cs v, cs = [] \/ cs <> section_name ->
               scanning cs lines <> Return (Some v).
Proof.
  induction 1 as [|l ls Hl _ IH]; simpl; intros cs v Hcs; [discriminate|].
  destruct (try_get_field_body ini section_name field_name cs l)
    as [cs'|r] eqn:E.
  - apply IH. apply try_get_field_body_moves in E.
    destruct E as [->|E]; [exact Hcs|].
    right. intros ->. exact (Hl E).
  - destruct r as [w|]; [|discriminate]. exfalso.
    destruct Hcs as [->|Hcs].
    + exact (try_get_field_body_at_start _ _ E).
    + apply try_get_field_body_found in E. tauto.
Qed.

Lemma scanning_without_the_field (lines : list str) :
  Forall (fun l => ~ assigns ini field_name l) lines ->
  forall cs v, scanning cs lines <> Return (Some v).
Proof.
  induction 1 as [|l ls Hl _ IH]; simpl; intros cs v; [discriminate|].
  destruct (try_get_field_body ini section_name field_name cs l)
    as [cs'|r] eqn:E; [apply IH|].
  destruct r as [w|]; [|discriminate].
  apply try_get_field_body_found in E. tauto.
Qed.

(** X6.  Missing section, missing field.  When no line of the document is a
    header of the section asked for, or when no line assigns the field asked
    for, each of the four readers returns its default, be the document well
    formed or not. *)
Theorem X6_absent_section_or_field_reads_as_default (fs : file_system) :
  Forall (fun l => ~ names_section ini section_name l)
    (getlines (loaded ini fs))
  \/ Forall (fun l => ~ assigns ini field_name l) (getlines (loaded ini fs)) ->
  (forall d, read_bool ini section_name field_name d fs = (d, fs))
  /\ (forall d, read_int ini section_name field_name d fs = (d, fs))
  /\ (forall d, read_double double stod ini section_name field_name d fs
                = (d, fs))
  /\ (forall d, read_str ini section_name field_name d fs = (d, fs)).
Proof.
  intros H. apply readers_default. unfold lookup.
  destruct (scanning [] (getlines (loaded ini fs))) as [cs|[v|]] eqn:E;
    try reflexivity.
  exfalso. destruct H as [H|H].
  - exact (scanning_without_the_section _ H [] v (or_introl eq_refl) E).
  - exact (scanning_without_the_field _ H [] v E).
Qed.

(** X7.  Missing or empty file.  When the file does not exist or holds no
    character, each reader returns its default, and a write, if the file can
    be opened for writing, succeeds and stores the header of the section and
    the assignment, and nothing else. *)
Theorem X7_absent_or_empty_file (fs : file_system) (v : str) :
  loaded ini fs = [] ->
  ((forall d, read_bool ini section_name field_name d fs = (d, fs))
   /\ (forall d, read_int ini section_name field_name d fs = (d, fs))
   /\ (forall d, read_double double stod ini section_name field_name d fs
                 = (d, fs))
   /\ (forall d, read_str ini section_name field_name d fs = (d, fs)))
  /\ (can_open_for_writing fs (file_path_ ini) = true ->
      exists fs',
        set_field ini section_name field_name v fs = (true, fs')
        /\ text_of ini fs'
           = Some (header_of section_name
                   ++ LF :: assignment ini field_name v)).
Proof.
  intros H. split.
  - apply readers_default. rewrite H. reflexivity.
  - intros Hw.
    assert (R : rewrite ini section_name field_name v []
                = Some (header_of section_name
                        ++ LF :: assignment ini field_name v)).
    { unfold rewrite. cbn [getlines for_lines]. f_equal.
      unfold set_field_finish. cbn [found_mode oss rewrite_init app].
      unfold pop_back.
      transitivity (removelast ((header_of section_name
                                 ++ LF :: assignment ini field_name v)
                                ++ [LF]));
        [|apply removelast_last].
      f_equal. unfold header_of. simpl.
      repeat (rewrite <- app_assoc; simpl). reflexivity. }
    rewrite set_field_run, H, R. unfold spit. rewrite Hw.
    eexists. split; [reflexivity|].
    unfold text_of, overwrite. simpl. rewrite str_eqb_refl. reflexivity.
Qed.

End AbsentTargets.

(** ** The write path, further *)

Section WriteProperties.

Variable ini : Ini.
Variables target_section target_field : str.

Local Abbreviation rewriting :=
  (set_field_body ini target_section target_field).

Lemma for_lines_returns {S R} (f : S -> str -> flow S R) (lines : list str) :
  forall st r,
    for_lines f st lines = Return r ->
    exists pre bad post s1,
      lines = pre ++ bad :: post
      /\ for_lines f st pre = Continue s1
      /\ f s1 bad = Return r.
Proof.
  induction lines as [|l ls IH]; simpl; intros st r H; [discriminate|].
  destruct (f st l) as [s1|r1] eqn:E.
  - destruct (IH _ _ H) as (pre & bad & post & s2 & -> & Hp & Hb).
    exists (l :: pre), bad, post, s2. simpl. rewrite E. auto.
  - inversion H; subst. exists [], l, ls, st. auto.
Qed.

(** The rewrite scan returns on malformed lines only. *)
Lemma set_field_body_returns (v : str) (st : rewrite_state) (raw : str)
    (b : bool) :
  rewriting v st raw = Return b ->
  malformed_line ini (current_section st) raw = true.
Proof.
  unfold set_field_body, malformed_line.
  destruct (is_ignore_line ini (trim raw)); [discriminate|]. cbn [negb andb].
  destruct (starts_with_bracket (trim raw)).
  - destruct (find (trim raw) (lit "]")) as [pos|]; [|reflexivity].
    destruct (pos =? 1); [reflexivity|].
    destruct (Str.eqb _ target_section); [discriminate|].
    destruct (_ && _); discriminate.
  - destruct (Str.eqb (current_section st) []); [reflexivity|]. cbn [orb].
    destruct (find_char (trim raw) (field_separator_ ini)); [|reflexivity].
    destruct (_ && _); discriminate.
Qed.

(** X8.  The two ways a write fails.  When a writer returns [false], either
    the file could not be opened for writing, or the scan reached a
    malformed line: the document is the lines [pre], then [bad], then
    [post], the scan gets through [pre], and [bad] is malformed where the
    scan then stands. *)
Theorem X8_write_fails_for_two_reasons_only
    (v : str) (fs fs' : file_system) :
  set_field ini target_section target_field v fs = (false, fs') ->
  can_open_for_writing fs (file_path_ ini) = false
  \/ exists pre bad post st,
       getlines (loaded ini fs) = pre ++ bad :: post
       /\ for_lines (rewriting v) rewrite_init pre = Continue st
       /\ malformed_line ini (current_section st) bad = true.
Proof.
  rewrite set_field_run. unfold rewrite.
  destruct (for_lines (rewriting v) rewrite_init (getlines (loaded ini fs)))
    as [st|b] eqn:E.
  - unfold spit. destruct (can_open_for_writing fs (file_path_ ini));
      [discriminate | auto].
  - intros _. right.
    destruct (for_lines_returns _ _ _ _ E)
      as (pre & bad & post & s1 & Hdoc & Hpre & Hbad).
    exists pre, bad, post, s1. split; [exact Hdoc|]. split; [exact Hpre|].
    eapply set_field_body_returns, Hbad.
Qed.

End WriteProperties.

Section WriteSuccess.

Variable ini : Ini.

(** Which lines the rewrite scan passes and in which section it leaves
    them depends on nothing but the lines. *)
Lemma set_field_body_section (ts tf v ts' tf' v' : str)
    (st st' : rewrite_state) (raw : str) :
  current_section st = current_section st' ->
  match set_field_body ini ts tf v st raw,
        set_field_body ini ts' tf' v' st' raw with
  | Continue s1, Continue s1' => current_section s1 = current_section s1'
  | Return _, Return _ => True
  | _, _ => False
  end.
Proof.
  intros Hc. unfold set_field_body. rewrite <- Hc.
  destruct (is_ignore_line ini (trim raw)); [simpl; auto|].
  destruct (starts_with_bracket (trim raw)).
  - destruct (find (trim raw) (lit "]")) as [pos|]; [|exact I].
    destruct (pos =? 1); [exact I|].
    destruct (Str.eqb _ ts); destruct (Str.eqb _ ts');
      repeat match goal with
             | |- context [if ?b then _ else _] => destruct b
             end; reflexivity.
  - destruct (Str.eqb (current_section st) []); [exact I|].
    destruct (find_char (trim raw) (field_separator_ ini)); [|exact I].
    destruct (_ && _); destruct (_ && _); reflexivity.
Qed.

Lemma for_lines_set_field_section (ts tf v ts' tf' v' : str)
    (lines : list str) :
  forall st st',
    current_section st = current_section st' ->
    match for_lines (set_field_body ini ts tf v) st lines,
          for_lines (set_field_body ini ts' tf' v') st' lines with
    | Continue _, Continue _ | Return _, Return _ => True
    | _, _ => False
    end.
Proof.
  induction lines as [|l ls IH]; simpl; intros st st' Hc; [exact I|].
  pose proof (set_field_body_section ts tf v ts' tf' v' st st' l Hc) as H.
  destruct (set_field_body ini ts tf v st l);
    destruct (set_field_body ini ts' tf' v' st' l);
    try contradiction; [apply IH, H | exact I].
Qed.

(** X9.  Whether the scan of a write gets through a document depends on the
    document alone: if it gives up for one section, field and value, it
    gives up for every other. *)
Theorem X9_write_gives_up_on_the_document_not_on_the_target
    (text ts tf v ts' tf' v' : str) :
  rewrite ini ts tf v text = None <-> rewrite ini ts' tf' v' text = None.
Proof.
  unfold rewrite.
  pose proof (for_lines_set_field_section ts tf v ts' tf' v' (getlines text)
                rewrite_init rewrite_init eq_refl) as H.
  destruct (for_lines (set_field_body ini ts tf v) rewrite_init
              (getlines text));
    destruct (for_lines (set_field_body ini ts' tf' v') rewrite_init
                (getlines text));
    try contradiction; split; (discriminate || reflexivity).
Qed.

End WriteSuccess.

(** ** Where a write puts the assignment *)

Section Placement.

Variable ini : Ini.
Variables target_section target_field : str.

Local Abbreviation rewriting :=
  (set_field_body ini target_section target_field).

(** Before any header of the target section, the scan copies the lines,
    trimmed, and stays in its mode. *)
Lemma scan_without_target (v : str) (lines : list str) :
  forall st st',
    current_section st = [] \/ current_section st <> target_section ->
    found_mode st <> SECTION_MATCH ->
    Forall (fun l => ~ names_section ini target_section l) lines ->
    for_lines (rewriting v) st lines = Continue st' ->
    oss st' = oss st ++ emit_lines (map trim lines)
    /\ found_mode st' = found_mode st.
Proof.
  induction lines as [|l ls IH]; simpl; intros st st' Hcs Hm Hl H.
  - inversion H; subst. rewrite app_nil_r. auto.
  - apply Forall_cons_iff in Hl. destruct Hl as [Hl1 Hl2].
    destruct (rewriting v st l) as [s1|] eqn:Hs; [|discriminate].
    assert (E : oss s1 = oss st ++ trim l ++ [LF]
                /\ found_mode s1 = found_mode st
                /\ (current_section s1 = []
                    \/ current_section s1 <> target_section)).
    { revert Hs. unfold set_field_body.
      destruct (is_ignore_line ini (trim l)) eqn:Hi.
      { intros E; inversion E; subst; simpl; auto. }
      destruct (starts_with_bracket (trim l)) eqn:Hb.
      - destruct (find (trim l) (lit "]")) as [pos|] eqn:Hf; [|discriminate].
        destruct (pos =? 1) eqn:Hp; [discriminate|].
        destruct (Str.eqb (substr (trim l) 1 (pos - 1)) target_section)
          eqn:Hs.
        { exfalso. apply Hl1. apply str_eqb_eq in Hs.
          split; [exact Hi|]. split; [exact Hb|]. exists pos. auto. }
        apply str_eqb_neq in Hs.
        destruct (found_mode st); simpl; try congruence;
          intros E; inversion E; subst; simpl; auto.
      - destruct (Str.eqb (current_section st) []) eqn:He; [discriminate|].
        apply str_eqb_neq in He.
        destruct (find_char (trim l) (field_separator_ ini)); [|discriminate].
        assert (Hn : current_section st <> target_section) by tauto.
        apply str_eqb_neq in Hn. rewrite Hn. simpl.
        intros E; inversion E; subst; simpl. apply str_eqb_neq in Hn. auto. }
    destruct E as (Ho & Hm1 & Hc1).
    destruct (IH s1 st' Hc1 ltac:(congruence) Hl2 H) as (Ho' & Hm').
    rewrite Ho', Ho. repeat rewrite <- app_assoc. simpl.
    split; [reflexivity | congruence].
Qed.

(** After the assignment was put, over lines that neither open the target
    section nor assign the target field, the scan copies the lines,
    trimmed, and adds nothing. *)
Lemma scan_after_match (v : str) (lines : list str) :
  forall st st',
    found_mode st = BOTH_MATCH ->
    Forall (fun l => ~ names_section ini target_section l
                     /\ ~ assigns ini target_field l) lines ->
    for_lines (rewriting v) st lines = Continue st' ->
    oss st' = oss st ++ emit_lines (map trim lines)
    /\ found_mode st' = BOTH_MATCH.
Proof.
  induction lines as [|l ls IH]; simpl; intros st st' Hm Hl H.
  - inversion H; subst. rewrite app_nil_r. auto.
  - apply Forall_cons_iff in Hl. destruct Hl as [[Hl1 Hl1'] Hl2].
    destruct (rewriting v st l) as [s1|] eqn:Hs; [|discriminate].
    assert (E : oss s1 = oss st ++ trim l ++ [LF]
                /\ found_mode s1 = BOTH_MATCH).
    { revert Hs. unfold set_field_body.
      destruct (is_ignore_line ini (trim l)) eqn:Hi.
      { intros E; inversion E; subst; simpl; auto. }
      destruct (starts_with_bracket (trim l)) eqn:Hb.
      - destruct (find (trim l) (lit "]")) as [pos|] eqn:Hf; [|discriminate].
        destruct (pos =? 1) eqn:Hp; [discriminate|].
        destruct (Str.eqb (substr (trim l) 1 (pos - 1)) target_section)
          eqn:Hs.
        { exfalso. apply Hl1. apply str_eqb_eq in Hs.
          split; [exact Hi|]. split; [exact Hb|]. exists pos. auto. }
        rewrite Hm. simpl. intros E; inversion E; subst; simpl; auto.
      - destruct (Str.eqb (current_section st) []); [discriminate|].
        destruct (find_char (trim l) (field_separator_ ini)) as [pos|] eqn:Hp;
          [|discriminate].
        destruct (Str.eqb (current_section st) target_section
                  && Str.eqb (trim (substr (trim l) 0 pos)) target_field)
          eqn:Hq.
        { exfalso. apply Hl1'. apply andb_true_iff in Hq.
          destruct Hq as [_ Hq]. apply str_eqb_eq in Hq.
          exists (trim (substr_from (trim l) (pos + 1))).
          split; [exact Hi|]. split; [exact Hb|]. exists pos. auto. }
        intros E; inversion E; subst; simpl; auto. }
    destruct E as (Ho & Hm1).
    destruct (IH s1 st' Hm1 Hl2 H) as (Ho' & Hm').
    rewrite Ho', Ho. repeat rewrite <- app_assoc. simpl. auto.
Qed.

(** X10.  A new section goes to the end.  When no line of the document is a
    header of the target section, a write that succeeds stores the lines of
    the document, trimmed, then the header of the target section, then the
    new assignment. *)
Theorem X10_absent_section_is_appended (v text out : str) :
  Forall (fun l => ~ names_section ini target_section l) (getlines text) ->
  rewrite ini target_section target_field v text = Some out ->
  out = pop_back (emit_lines
          (map trim (getlines text)
           ++ [header_of target_section;
               assignment ini target_field v])).
Proof.
  intros Hl. unfold rewrite.
  destruct (for_lines (rewriting v) rewrite_init (getlines text)) as [st|]
    eqn:H; [|discriminate].
  intros E; inversion E; subst; clear E.
  destruct (scan_without_target v (getlines text) rewrite_init st)
    as (Ho & Hm); auto; try discriminate.
  simpl in Ho, Hm. unfold set_field_finish. rewrite Hm, Ho. f_equal.
  rewrite emit_lines_app. unfold header_of. simpl.
  repeat (rewrite <- app_assoc; simpl). reflexivity.
Qed.

(** X11.  An existing field is overwritten where it stands.  Let the
    document hold the header of the target section after the lines [pre],
    then lines that leave the target field alone, then a line [l] that
    assigns it, then lines [post] that neither open the target section again
    nor assign the target field.  A write that succeeds stores the lines of
    the document, trimmed, with the new assignment in the place of [l], and
    adds no line. *)
Theorem X11_existing_field_is_replaced_in_place
    (v text out : str) (pre inner post : list str) (hA l : str) :
  Forall (fun x => ~ names_section ini target_section x) pre ->
  names_section ini target_section hA ->
  Forall (section_line ini target_field) inner ->
  assigns ini target_field l ->
  Forall (fun x => ~ names_section ini target_section x
                   /\ ~ assigns ini target_field x) post ->
  getlines text = pre ++ hA :: inner ++ l :: post ->
  rewrite ini target_section target_field v text = Some out ->
  out = pop_back (emit_lines
          (map trim pre ++ trim hA :: map trim inner
           ++ assignment ini (c_str target_field) v :: map trim post)).
Proof.
  intros Hpre HA Hinner (value & Hi & Hb & pos & Hp & Hn & _) Hpost Hdoc.
  unfold rewrite. rewrite Hdoc.
  destruct (for_lines (rewriting v) rewrite_init
              (pre ++ hA :: inner ++ l :: post)) as [st|] eqn:H;
    [|discriminate].
  intros E; inversion E; subst out; clear E.
  pose proof (names_section_not_empty _ _ _ HA) as Hne.
  apply for_lines_app_inv in H. destruct H as (s1 & H1 & H2).
  destruct (scan_without_target v pre rewrite_init s1) as (Ho1 & _);
    auto; try discriminate.
  simpl in H2, Ho1.
  rewrite (scan_header ini target_section target_field v _ _ s1 HA),
          str_eqb_refl in H2.
  set (s2 := {| found_mode := SECTION_MATCH;
                current_section := target_section;
                oss := oss s1 ++ trim hA ++ [LF] |}) in H2.
  destruct (scan_inside_section ini target_section target_field v inner s2
              eq_refl Hne Hinner) as (s3 & H3 & Ho3 & Hm3 & Hc3).
  rewrite for_lines_app, H3 in H2. simpl in H2.
  assert (Hl : rewriting v s3 l
               = Continue {| found_mode := BOTH_MATCH;
                             current_section := current_section s3;
                             oss := oss s3
                                    ++ assignment ini (c_str target_field) v
                                    ++ [LF] |}).
  { unfold set_field_body. rewrite Hi, Hb, Hc3, Hp, Hn.
    apply str_eqb_neq in Hne. rewrite Hne, !str_eqb_refl. reflexivity. }
  rewrite Hl in H2.
  apply scan_after_match in H2; [|reflexivity | exact Hpost].
  destruct H2 as (Ho & Hm). simpl in Ho.
  unfold set_field_finish. rewrite Hm, Ho, Ho3. subst s2. simpl oss.
  rewrite Ho1. f_equal.
  rewrite !emit_lines_app. simpl. rewrite emit_lines_app. simpl.
  repeat (rewrite <- app_assoc; simpl). reflexivity.
Qed.

End Placement.

(** ** What a write leaves stable *)

Section Stability.

Variable ini : Ini.
Variables target_section target_field v : str.
Hypothesis Hheader : readable_header ini target_section.
Hypothesis Hassign : readable_assignment ini target_field v.

Local Abbreviation rewriting :=
  (set_field_body ini target_section target_field v).
Local Abbreviation new_line := (assignment ini target_field v).

Lemma target_section_not_empty : Str.eqb target_section [] = false.
Proof. destruct Hheader as (H & _). apply str_eqb_neq, H. Qed.

(** The assignment that was written is a line that assigns [v] to the
    target field, and has nothing to trim. *)
Lemma new_line_assigns :
  trim new_line = new_line /\ assigns_value ini target_field v new_line.
Proof.
  destruct Hassign as (Hf & _ & Hsep & Hv & Htv & _ & Htl & Hig & Hbr).
  split; [exact Htl|]. unfold assigns_value. rewrite Htl.
  split; [exact Hig|]. split; [exact Hbr|].
  exists (List.length target_field).
  split; [apply find_char_first, Hsep|].
  unfold substr, substr_from, assignment. cbn [skipn].
  rewrite firstn_app, Nat.sub_diag, firstn_all. simpl firstn.
  rewrite app_nil_r. split; [exact Hf|].
  rewrite Nat.add_1_r.
  change (target_field ++ field_separator_ ini :: v)
    with (target_field ++ [field_separator_ ini] ++ v).
  rewrite app_assoc.
  replace (S (List.length target_field))
    with (List.length (target_field ++ [field_separator_ ini]))
    by (rewrite length_app; simpl; lia).
  rewrite skipn_app, Nat.sub_diag, skipn_all. simpl. exact Htv.
Qed.

(** The header that was written names the target section, and has nothing
    to trim. *)
Lemma new_header_names :
  trim (header_of target_section) = header_of target_section
  /\ names_section ini target_section (header_of target_section).
Proof.
  destruct Hheader as (Hne & Hbr & _ & Hig).
  pose proof (trim_header target_section) as Ht.
  split; [exact Ht|]. unfold names_section. rewrite Ht.
  split; [exact Hig|]. split; [apply Ascii.eqb_refl|].
  exists (S (List.length target_section)).
  split.
  { unfold header_of. change (lit "]") with ["]"%char].
    change ("["%char :: target_section ++ ["]"%char])
      with (("["%char :: target_section) ++ "]"%char :: []).
    rewrite find_one_char; [reflexivity|].
    simpl. intros [E|E]; [discriminate | tauto]. }
  split.
  { destruct target_section; [congruence | reflexivity]. }
  unfold substr, header_of. cbn [skipn Nat.sub].
  rewrite Nat.sub_0_r, firstn_app, Nat.sub_diag, firstn_all. simpl.
  apply app_nil_r.
Qed.

(** A scan in the target section replaces the assignment that was written
    by itself. *)
Lemma rewriting_new_line (t : rewrite_state) :
  current_section t = target_section ->
  rewriting t new_line
  = Continue {| found_mode := BOTH_MATCH;
                current_section := current_section t;
                oss := oss t ++ new_line ++ [LF] |}.
Proof.
  intros Hc. destruct new_line_assigns as (Ht & Hi & Hb & pos & Hp & Hn & _).
  destruct Hassign as (_ & Hcstr & _).
  unfold assigns_value in *. rewrite Ht in Hi, Hb, Hp, Hn.
  unfold set_field_body. rewrite Ht, Hi, Hb, Hc, target_section_not_empty.
  rewrite Hp, Hn, !str_eqb_refl, Hcstr. reflexivity.
Qed.

(** Any reader takes a header for what it names. *)
Lemma try_get_field_body_header (ts tf cs sec raw : str) :
  names_section ini sec raw ->
  try_get_field_body ini ts tf cs raw = Continue sec.
Proof.
  intros (Hi & Hb & pos & Hf & Hp & Hs).
  unfold try_get_field_body. rewrite Hi, Hb, Hf, Hp, Hs. reflexivity.
Qed.

(** The text a write stores, cut into lines again. *)
Lemma lookup_of_emitted (ts tf : str) (ls : list str) :
  Forall one_line ls ->
  lookup ini ts tf (pop_back (emit_lines ls))
  = match for_lines (try_get_field_body ini ts tf) [] ls with
    | Continue _ => None
    | Return r => r
    end.
Proof.
  intros Hl. destruct ls as [|l ls]; [reflexivity|].
  pose proof (split_emit_lines (l :: ls) ltac:(discriminate) Hl) as Hs.
  unfold lookup, getlines.
  destruct (pop_back (emit_lines (l :: ls))) as [|c t] eqn:E.
  - simpl in Hs. rewrite <- Hs. reflexivity.
  - rewrite Hs. reflexivity.
Qed.

(** What a write that succeeds has done: the scan produced a text, the
    file could be opened, and the file now holds that text. *)
Lemma set_field_stores (fs fs' : file_system) :
  set_field ini target_section target_field v fs = (true, fs') ->
  exists out,
    rewrite ini target_section target_field v (loaded ini fs) = Some out
    /\ can_open_for_writing fs (file_path_ ini) = true
    /\ loaded ini fs' = out.
Proof.
  rewrite set_field_run.
  destruct (rewrite ini target_section target_field v (loaded ini fs))
    as [out|]; [|discriminate].
  unfold spit. destruct (can_open_for_writing fs (file_path_ ini));
    [|discriminate].
  intros E; inversion E; subst. exists out.
  split; [reflexivity|]. split; [reflexivity|].
  unfold loaded, slurp, overwrite. simpl. rewrite str_eqb_refl. reflexivity.
Qed.

(** *** Writing twice *)

(** One iteration, and the same scan on what it wrote. *)
Lemma set_field_body_reproduces (st st' t : rewrite_state) (raw : str) :
  rewriting st raw = Continue st' ->
  (found_mode st = SECTION_MATCH -> current_section st = target_section) ->
  found_mode t = found_mode st ->
  current_section t = current_section st ->
  exists chunk t',
    for_lines rewriting t chunk = Continue t'
    /\ emitted_as trim ini target_field v raw chunk
    /\ oss st' = oss st ++ emit_lines chunk
    /\ oss t' = oss t ++ emit_lines chunk
    /\ found_mode t' = found_mode st'
    /\ current_section t' = current_section st'
    /\ (found_mode st' = SECTION_MATCH ->
        current_section st' = target_section).
Proof.
  destruct Hassign as (_ & Hcstr & _).
  unfold set_field_body at 1. intros H Hinv Hmt Hct.
  destruct (is_ignore_line ini (trim raw)) eqn:Hi.
  { inversion H; subst; clear H. exists [trim raw]. eexists. split.
    { simpl. rewrite set_field_body_trimmed. unfold set_field_body.
      rewrite Hi. reflexivity. }
    simpl. repeat split; auto. constructor. }
  destruct (starts_with_bracket (trim raw)) eqn:Hb.
  - destruct (find (trim raw) (lit "]")) as [pos|] eqn:Hf; [|discriminate].
    destruct (pos =? 1) eqn:Hp; [discriminate|].
    destruct (Str.eqb (substr (trim raw) 1 (pos - 1)) target_section) eqn:Hs.
    { inversion H; subst; clear H. exists [trim raw]. eexists. split.
      { simpl. rewrite set_field_body_trimmed. unfold set_field_body.
        rewrite Hi, Hb, Hf, Hp, Hs. reflexivity. }
      simpl. repeat split; auto; [constructor|].
      intros _. apply str_eqb_eq, Hs. }
    destruct (found_mode st) eqn:Hfm; simpl in H;
      inversion H; subst; clear H.
    + exists [trim raw]. eexists. split.
      { simpl. rewrite set_field_body_trimmed. unfold set_field_body.
        rewrite Hi, Hb, Hf, Hp, Hs, Hmt. reflexivity. }
      simpl. repeat split; auto; [constructor | discriminate].
    + exists [new_line; trim raw]. eexists. split.
      { simpl. rewrite rewriting_new_line by (rewrite Hct; auto).
        rewrite set_field_body_trimmed. unfold set_field_body.
        rewrite Hi, Hb, Hf, Hp. cbn [current_section found_mode oss].
        rewrite Hs. reflexivity. }
      simpl. split; [apply Preceded, Hb|].
      repeat split; try discriminate;
        repeat (rewrite <- app_assoc; simpl); reflexivity.
    + exists [trim raw]. eexists. split.
      { simpl. rewrite set_field_body_trimmed. unfold set_field_body.
        rewrite Hi, Hb, Hf, Hp, Hs, Hmt. reflexivity. }
      simpl. repeat split; auto; [constructor | discriminate].
  - destruct (Str.eqb (current_section st) []) eqn:Hcs; [discriminate|].
    destruct (find_char (trim raw) (field_separator_ ini)) as [pos|] eqn:Hp;
      [|discriminate].
    destruct (Str.eqb (current_section st) target_section
              && Str.eqb (trim (substr (trim raw) 0 pos)) target_field)
      eqn:Hm; inversion H; subst; clear H.
    + apply andb_true_iff in Hm. destruct Hm as [Hm1 Hm2].
      apply str_eqb_eq in Hm1, Hm2.
      exists [assignment ini (c_str target_field) v]. eexists. split.
      { simpl. rewrite Hcstr.
        rewrite rewriting_new_line by congruence. reflexivity. }
      simpl. rewrite Hcstr. split.
      { rewrite <- Hcstr at 2. apply Replaced.
        exists (trim (substr_from (trim raw) (pos + 1))).
        split; [exact Hi|]. split; [exact Hb|]. exists pos. auto. }
      repeat split; auto; discriminate.
    + exists [trim raw]. eexists. split.
      { simpl. rewrite set_field_body_trimmed. unfold set_field_body.
        rewrite Hi, Hb, Hct, Hcs, Hp, Hm, Hmt. reflexivity. }
      simpl. repeat split; auto. constructor.
Qed.

(** The whole scan, and the same scan on what it wrote. *)
Lemma for_lines_reproduces (lines : list str) :
  forall st st' t,
    Forall one_line lines ->
    for_lines rewriting st lines = Continue st' ->
    (found_mode st = SECTION_MATCH -> current_section st = target_section) ->
    found_mode t = found_mode st ->
    current_section t = current_section st ->
    exists out t',
      for_lines rewriting t out = Continue t'
      /\ Forall one_line out
      /\ oss st' = oss st ++ emit_lines out
      /\ oss t' = oss t ++ emit_lines out
      /\ found_mode t' = found_mode st'
      /\ current_section t' = current_section st'
      /\ (found_mode st' = SECTION_MATCH ->
          current_section st' = target_section).
Proof.
  induction lines as [|l ls IH]; simpl; intros st st' t Hl H Hinv Hmt Hct.
  - inversion H; subst. exists [], t. simpl. rewrite !app_nil_r.
    repeat split; auto.
  - apply Forall_cons_iff in Hl. destruct Hl as [Hl1 Hl2].
    destruct (rewriting st l) as [s1|] eqn:Hs; [|discriminate].
    destruct (set_field_body_reproduces _ _ t _ Hs Hinv Hmt Hct)
      as (chunk & t1 & Hc & Hem & Ho & Hot & Hm1 & Hc1 & Hinv1).
    destruct (IH s1 st' t1 Hl2 H Hinv1 Hm1 Hc1)
      as (out & t' & Hout & Hone & Ho' & Hot' & Hm' & Hc' & Hinv').
    exists (chunk ++ out), t'.
    split; [rewrite for_lines_app, Hc; exact Hout|].
    split; [apply Forall_app; split;
            [exact (emitted_one_line ini target_field v Hassign l chunk
                      Hl1 Hem) | exact Hone]|].
    split; [rewrite Ho', Ho, emit_lines_app, app_assoc; reflexivity|].
    split; [rewrite Hot', Hot, emit_lines_app, app_assoc; reflexivity|].
    auto.
Qed.

(** The text a successful write stores is a text on which the same write
    succeeds and stores the same text. *)
Lemma rewrite_twice (text out : str) :
  rewrite ini target_section target_field v text = Some out ->
  rewrite ini target_section target_field v out = Some out.
Proof.
  unfold rewrite at 1.
  destruct (for_lines rewriting rewrite_init (getlines text)) as [st|] eqn:H;
    [|discriminate].
  intros E; inversion E; subst; clear E.
  destruct (for_lines_reproduces _ _ _ rewrite_init
              (getlines_all_one_line text) H)
    as (O & t & Ht & Hone & Hos & Hot & Hm & Hc & Hinv);
    try reflexivity; [discriminate|].
  simpl in Hos, Hot.
  destruct Hheader as (_ & _ & Hsec1 & _).
  destruct Hassign as (_ & _ & _ & _ & _ & Hasg1 & _).
  destruct new_header_names as (_ & Hnames).
  assert (Hhdr1 : one_line (header_of target_section)).
  { unfold one_line, header_of. simpl. rewrite in_app_iff. simpl.
    intros [E|[E|[E|[]]]]; try discriminate. exact (Hsec1 E). }
  assert (T : exists all t2,
             set_field_finish ini target_section target_field v st
             = emit_lines all
             /\ Forall one_line all
             /\ for_lines rewriting rewrite_init all = Continue t2
             /\ found_mode t2 = BOTH_MATCH
             /\ oss t2 = emit_lines all).
  { unfold set_field_finish. rewrite Hos.
    destruct (found_mode st) eqn:Hfm.
    - exists (O ++ [header_of target_section; new_line]). eexists.
      split; [rewrite emit_lines_app; simpl; unfold header_of;
              f_equal; simpl; f_equal;
              repeat rewrite <- app_assoc; reflexivity|].
      split; [apply Forall_app; split; [exact Hone|]; repeat constructor;
              assumption|].
      split.
      { rewrite for_lines_app, Ht. simpl.
        rewrite (scan_header ini target_section target_field v _ _ t Hnames),
                str_eqb_refl.
        rewrite rewriting_new_line by reflexivity. reflexivity. }
      split; [reflexivity|]. simpl.
      rewrite Hot, emit_lines_app.
      destruct new_header_names as (-> & _). simpl.
      repeat (rewrite <- app_assoc; simpl). reflexivity.
    - exists (O ++ [new_line]). eexists.
      split; [rewrite emit_lines_app; reflexivity|].
      split; [apply Forall_app; split; [exact Hone|]; repeat constructor;
              assumption|].
      split.
      { rewrite for_lines_app, Ht. simpl.
        rewrite rewriting_new_line by (rewrite Hc; auto). reflexivity. }
      split; [reflexivity|]. simpl.
      rewrite Hot, emit_lines_app. simpl.
      repeat (rewrite <- app_assoc; simpl). reflexivity.
    - exists O, t. split; [reflexivity|]. split; [exact Hone|].
      split; [exact Ht|]. split; [exact Hm|]. exact Hot. }
  destruct T as (all & t2 & -> & Hall & Ht2 & Hm2 & Ho2).
  assert (Hne : all <> []).
  { intros ->. simpl in Ht2. inversion Ht2; subst t2. discriminate. }
  pose proof (split_emit_lines _ Hne Hall) as Hsplit.
  unfold rewrite, getlines.
  destruct (pop_back (emit_lines all)) as [|c0 t0] eqn:Eout.
  - simpl in Hsplit. subst all. simpl in Ht2. inversion Ht2; subst t2.
    discriminate.
  - rewrite Hsplit, Ht2. unfold set_field_finish. rewrite Hm2, Ho2, Eout.
    reflexivity.
Qed.

(** X12.  Writing twice is writing once.  For a section name, a field name
    and a text that can be read back from the lines written for them, after
    a write that succeeds the same write succeeds again and leaves in the
    file the text that was there. *)
Theorem X12_write_is_idempotent (fs fs1 : file_system) :
  set_field ini target_section target_field v fs = (true, fs1) ->
  exists fs2,
    set_field ini target_section target_field v fs1 = (true, fs2)
    /\ text_of ini fs2 = text_of ini fs1.
Proof.
  intros H. destruct (set_field_stores _ _ H) as (out & Hr & Hw & Hl).
  assert (Hw1 : can_open_for_writing fs1 (file_path_ ini) = true).
  { rewrite set_field_run, Hr in H. unfold spit in H. rewrite Hw in H.
    inversion H; subst. exact Hw. }
  assert (Ht : text_of ini fs1 = Some out).
  { rewrite set_field_run, Hr in H. unfold spit in H. rewrite Hw in H.
    inversion H; subst. unfold text_of, overwrite. simpl.
    rewrite str_eqb_refl. reflexivity. }
  rewrite set_field_run, Hl, (rewrite_twice _ _ Hr). unfold spit.
  rewrite Hw1. eexists. split; [reflexivity|].
  rewrite Ht. unfold text_of, overwrite. simpl. rewrite str_eqb_refl.
  reflexivity.
Qed.

(** *** The other fields *)

Section OtherTarget.

Variables other_section other_field : str.
Hypothesis Hother :
  other_section <> target_section \/ other_field <> target_field.

Local Abbreviation other_body :=
  (try_get_field_body ini other_section other_field).

Lemma not_the_other_target :
  Str.eqb target_section other_section && Str.eqb target_field other_field
  = false.
Proof.
  apply andb_false_iff. destruct Hother as [H|H]; [left | right];
    apply str_eqb_neq; congruence.
Qed.

(** The reader of another target passes the assignment that was written. *)
Lemma other_body_new_line :
  other_body target_section new_line = Continue target_section.
Proof.
  destruct new_line_assigns as (Ht & Hi & Hb & pos & Hp & Hn & _).
  unfold assigns_value in *. rewrite Ht in Hi, Hb, Hp, Hn.
  unfold try_get_field_body.
  rewrite Ht, Hi, Hb, target_section_not_empty, Hp, Hn.
  rewrite not_the_other_target. reflexivity.
Qed.

(** One iteration of the rewrite scan, and the reader of another target on
    the line read and on what was written for it. *)
Lemma set_field_body_keeps_other (st st' : rewrite_state) (raw : str) :
  rewriting st raw = Continue st' ->
  (found_mode st = SECTION_MATCH -> current_section st = target_section) ->
  exists chunk,
    emitted_as trim ini target_field v raw chunk
    /\ oss st' = oss st ++ emit_lines chunk
    /\ (found_mode st' = SECTION_MATCH ->
        current_section st' = target_section)
    /\ (forall rest,
          for_lines other_body (current_section st) (chunk ++ rest)
          = match other_body (current_section st) raw with
            | Continue c => for_lines other_body c rest
            | Return r => Return r
            end)
    /\ (forall c, other_body (current_section st) raw = Continue c ->
                  c = current_section st').
Proof.
  destruct Hassign as (_ & Hcstr & _).
  unfold set_field_body. intros H Hinv.
  destruct (is_ignore_line ini (trim raw)) eqn:Hi.
  { inversion H; subst; clear H. exists [trim raw]. simpl.
    split; [constructor|]. split; [reflexivity|]. split; [exact Hinv|].
    split; [intros rest; rewrite try_get_field_body_trimmed; reflexivity|].
    unfold try_get_field_body. rewrite Hi. intros c E; inversion E; auto. }
  destruct (starts_with_bracket (trim raw)) eqn:Hb.
  - destruct (find (trim raw) (lit "]")) as [pos|] eqn:Hf; [|discriminate].
    destruct (pos =? 1) eqn:Hp; [discriminate|].
    assert (Hread : forall c, other_body (current_section st) raw
                              = Continue c ->
                              c = substr (trim raw) 1 (pos - 1)).
    { unfold try_get_field_body. rewrite Hi, Hb, Hf, Hp.
      intros c E; inversion E; auto. }
    destruct (Str.eqb (substr (trim raw) 1 (pos - 1)) target_section) eqn:Hs.
    { inversion H; subst; clear H. exists [trim raw]. simpl.
      split; [constructor|]. split; [reflexivity|].
      split; [intros _; apply str_eqb_eq, Hs|].
      split; [intros rest; rewrite try_get_field_body_trimmed; reflexivity|].
      exact Hread. }
    destruct (found_mode st) eqn:Hfm; simpl in H;
      inversion H; subst; clear H.
    + exists [trim raw]. simpl.
      split; [constructor|]. split; [reflexivity|]. split; [discriminate|].
      split; [intros rest; rewrite try_get_field_body_trimmed; reflexivity|].
      exact Hread.
    + exists [new_line; trim raw]. simpl.
      split; [apply Preceded, Hb|].
      split; [repeat (rewrite <- app_assoc; simpl); reflexivity|].
      split; [discriminate|].
      split; [|exact Hread].
      intros rest. rewrite (Hinv eq_refl), other_body_new_line.
      rewrite try_get_field_body_trimmed. reflexivity.
    + exists [trim raw]. simpl.
      split; [constructor|]. split; [reflexivity|]. split; [discriminate|].
      split; [intros rest; rewrite try_get_field_body_trimmed; reflexivity|].
      exact Hread.
  - destruct (Str.eqb (current_section st) []) eqn:Hcs; [discriminate|].
    destruct (find_char (trim raw) (field_separator_ ini)) as [pos|] eqn:Hp;
      [|discriminate].
    destruct (Str.eqb (current_section st) target_section
              && Str.eqb (trim (substr (trim raw) 0 pos)) target_field)
      eqn:Hm; inversion H; subst; clear H.
    + apply andb_true_iff in Hm. destruct Hm as [Hm1 Hm2].
      apply str_eqb_eq in Hm1, Hm2.
      assert (Hread : other_body (current_section st) raw
                      = Continue (current_section st)).
      { unfold try_get_field_body. rewrite Hi, Hb, Hcs, Hp, Hm2, Hm1.
        rewrite not_the_other_target. reflexivity. }
      exists [assignment ini (c_str target_field) v]. simpl.
      split.
      { apply Replaced. exists (trim (substr_from (trim raw) (pos + 1))).
        split; [exact Hi|]. split; [exact Hb|]. exists pos. auto. }
      split; [reflexivity|]. split; [discriminate|].
      rewrite Hread. split.
      * intros rest. rewrite Hcstr, Hm1, other_body_new_line. reflexivity.
      * intros c E; inversion E; auto.
    + exists [trim raw]. simpl.
      split; [constructor|]. split; [reflexivity|]. split; [exact Hinv|].
      split; [intros rest; rewrite try_get_field_body_trimmed; reflexivity|].
      unfold try_get_field_body. rewrite Hi, Hb, Hcs, Hp.
      destruct (Str.eqb (current_section st) other_section && _);
        [discriminate|].
      intros c E; inversion E; reflexivity.
Qed.

(** The whole rewrite scan, and the reader of another target. *)
Lemma for_lines_keeps_other (lines : list str) :
  forall st st',
    Forall one_line lines ->
    for_lines rewriting st lines = Continue st' ->
    (found_mode st = SECTION_MATCH -> current_section st = target_section) ->
    exists out,
      oss st' = oss st ++ emit_lines out
      /\ Forall one_line out
      /\ (found_mode st' = SECTION_MATCH ->
          current_section st' = target_section)
      /\ (forall rest,
            for_lines other_body (current_section st) (out ++ rest)
            = match for_lines other_body (current_section st) lines with
              | Continue c => for_lines other_body c rest
              | Return r => Return r
              end)
      /\ (forall c, for_lines other_body (current_section st) lines
                    = Continue c ->
                    c = current_section st').
Proof.
  induction lines as [|l ls IH]; simpl; intros st st' Hl H Hinv.
  - inversion H; subst. exists []. simpl. rewrite app_nil_r.
    repeat split; auto. intros c E; inversion E; auto.
  - apply Forall_cons_iff in Hl. destruct Hl as [Hl1 Hl2].
    destruct (rewriting st l) as [s1|] eqn:Hs; [|discriminate].
    destruct (set_field_body_keeps_other _ _ _ Hs Hinv)
      as (chunk & Hem & Ho & Hinv1 & Hr & Hc).
    destruct (IH s1 st' Hl2 H Hinv1) as (out & Ho' & Hone & Hinv' & Hr' & Hc').
    exists (chunk ++ out).
    split; [rewrite Ho', Ho, emit_lines_app, app_assoc; reflexivity|].
    split; [apply Forall_app; split;
            [exact (emitted_one_line ini target_field v Hassign l chunk
                      Hl1 Hem) | exact Hone]|].
    split; [exact Hinv'|].
    destruct (other_body (current_section st) l) as [c1|r1] eqn:E.
    + rewrite (Hc c1 eq_refl) in *. split.
      * intros rest. rewrite <- app_assoc, Hr. apply Hr'.
      * exact Hc'.
    + split; [|discriminate].
      intros rest. rewrite <- app_assoc, Hr. reflexivity.
Qed.

(** The lookup of another target in the text a successful write stores
    returns what it returned in the text before. *)
Lemma rewrite_keeps_other (text out : str) :
  rewrite ini target_section target_field v text = Some out ->
  lookup ini other_section other_field out
  = lookup ini other_section other_field text.
Proof.
  unfold rewrite.
  destruct (for_lines rewriting rewrite_init (getlines text)) as [st|] eqn:H;
    [|discriminate].
  intros E; inversion E; subst; clear E.
  destruct (for_lines_keeps_other _ _ _ (getlines_all_one_line text) H)
    as (O & Hos & Hone & Hinv & Hr & Hc); [discriminate|].
  simpl in Hos, Hr, Hc.
  destruct Hheader as (_ & _ & Hsec1 & _).
  destruct Hassign as (_ & _ & _ & _ & _ & Hasg1 & _).
  destruct new_header_names as (_ & Hnames).
  assert (Hhdr1 : one_line (header_of target_section)).
  { unfold one_line, header_of. simpl. rewrite in_app_iff. simpl.
    intros [E|[E|[E|[]]]]; try discriminate. exact (Hsec1 E). }
  assert (Hfinal : forall tail,
            Forall one_line tail ->
            set_field_finish ini target_section target_field v st
            = emit_lines (O ++ tail) ->
            (forall c, for_lines other_body [] (getlines text) = Continue c ->
                       exists c', for_lines other_body c tail = Continue c') ->
            lookup ini other_section other_field
              (pop_back (set_field_finish ini target_section target_field
                           v st))
            = lookup ini other_section other_field text).
  { intros tail Htail -> Hread.
    rewrite lookup_of_emitted by (apply Forall_app; split; assumption).
    unfold lookup. rewrite Hr.
    destruct (for_lines other_body [] (getlines text)) as [c|r] eqn:E;
      [|reflexivity].
    destruct (Hread c eq_refl) as (c' & ->). reflexivity. }
  destruct (found_mode st) eqn:Hfm.
  - apply (Hfinal [header_of target_section; new_line]).
    + repeat constructor; assumption.
    + unfold set_field_finish. rewrite Hfm, Hos, emit_lines_app. simpl.
      unfold header_of. f_equal. simpl. f_equal.
      repeat rewrite <- app_assoc. reflexivity.
    + intros c _. exists target_section. simpl.
      rewrite (try_get_field_body_header _ _ _ _ _ Hnames),
              other_body_new_line. reflexivity.
  - apply (Hfinal [new_line]).
    + repeat constructor; assumption.
    + unfold set_field_finish. rewrite Hfm, Hos, emit_lines_app. reflexivity.
    + intros c E. exists target_section. simpl.
      rewrite (Hc c E), (Hinv eq_refl), other_body_new_line. reflexivity.
  - apply (Hfinal []).
    + constructor.
    + unfold set_field_finish. rewrite Hfm, Hos, app_nil_r. reflexivity.
    + intros c _. exists c. reflexivity.
Qed.

(** X13.  A write leaves the other fields as they read.  For a section
    name, a field name and a text that can be read back from the lines
    written for them, after a write that succeeds the lookup of any other
    target returns what it returned before, and so does [read_str]. *)
Theorem X13_write_keeps_what_other_targets_read (fs fs' : file_system) :
  set_field ini target_section target_field v fs = (true, fs') ->
  lookup ini other_section other_field (loaded ini fs')
  = lookup ini other_section other_field (loaded ini fs)
  /\ forall d, fst (read_str ini other_section other_field d fs')
               = fst (read_str ini other_section other_field d fs).
Proof.
  intros H. destruct (set_field_stores _ _ H) as (out & Hr & _ & Hl).
  assert (E : lookup ini other_section other_field (loaded ini fs')
              = lookup ini other_section other_field (loaded ini fs)).
  { rewrite Hl. apply rewrite_keeps_other, Hr. }
  split; [exact E|]. intros d.
  unfold read_str, bind. rewrite !try_get_field_run, E.
  destruct (lookup ini other_section other_field (loaded ini fs));
    reflexivity.
Qed.

End OtherTarget.

End Stability.

(** ** Two writes *)

Section TwoWrites.

Variable ini : Ini.
Variables s1 f1 v1 s2 f2 v2 : str.

(** X15.  Two writes to different targets are both read back.  For names
    and texts that can be read back from the lines written for them, after
    a successful write of [v1] to the first target and then a successful
    write of [v2] to another target, the lookup of the first target returns
    [v1] and the lookup of the second returns [v2]. *)
Theorem X15_two_writes_are_both_read_back (fs fs1 fs2 : file_system) :
  readable_header ini s1 -> readable_assignment ini f1 v1 ->
  readable_header ini s2 -> readable_assignment ini f2 v2 ->
  s1 <> s2 \/ f1 <> f2 ->
  set_field ini s1 f1 v1 fs = (true, fs1) ->
  set_field ini s2 f2 v2 fs1 = (true, fs2) ->
  lookup ini s1 f1 (loaded ini fs2) = Some v1
  /\ lookup ini s2 f2 (loaded ini fs2) = Some v2.
Proof.
  intros Hh1 Ha1 Hh2 Ha2 Hne Hw1 Hw2. split.
  - destruct (set_field_stores ini s2 f2 v2 _ _ Hw2) as (out & Hr & _ & Hl).
    rewrite Hl.
    rewrite (rewrite_keeps_other ini s2 f2 v2 Hh2 Ha2 s1 f1 Hne _ _ Hr).
    exact (set_field_then_lookup ini s1 f1 v1 _ _ Hh1 Ha1 Hw1).
  - exact (set_field_then_lookup ini s2 f2 v2 _ _ Hh2 Ha2 Hw2).
Qed.

End TwoWrites.

(** ** Worked documents *)

Section WorkedDocuments.

Local Abbreviation A := (lit "A").
Local Abbreviation B := (lit "B").
Local Abbreviation K := (lit "K").

(** [stod] that always throws and [ss << value] that prints nothing stand
    for the library where the type [double] plays no part. *)
Local Abbreviation no_stod := (fun _ : str => @None unit).
Local Abbreviation no_text := (fun _ : unit => @nil ascii).


(** C4 on [doc_orphan]: [Z=1] precedes every header, and [K=5] in [[A]] is
    not found. *)
Lemma C4_field_before_any_header_hides_the_match :
  read_str hoge A K (lit "none") (on_disk doc_orphan)
  = (lit "none", on_disk doc_orphan).
Proof.
  destruct (C4_malformed_line_aborts_lookup unit no_stod hoge A K
              (on_disk doc_orphan) [] [lit "[A]"; lit "K=5"] (lit "Z=1") []
              eq_refl eq_refl eq_refl)
    as (_ & _ & _ & H).
  apply H.
Defined.

(** C8 on [doc_empty_value]: the first [K] of [[A]] is assigned blanks, and
    the [K=7] after it is not read. *)
Lemma C8_first_assignment_is_empty :
  read_int hoge A K 42 (on_disk doc_empty_value)
  = (42%Z, on_disk doc_empty_value).
Proof.
  assert (Hl : assigns_value hoge K [] (lit "K=   ")).
  { split; [reflexivity|]. split; [reflexivity|].
    exists 1. repeat split; reflexivity. }
  destruct (C8_empty_value_reads_as_absent unit no_stod hoge A K
              (on_disk doc_empty_value) [lit "[A]"] [lit "K=7"] (lit "K=   ")
              eq_refl eq_refl Hl)
    as (_ & H & _).
  apply H.
Defined.

(** C5 on [doc_orphan]: the write fails and the disk is as before. *)
Lemma C5_field_before_any_header_blocks_the_write :
  write_str hoge A K (lit "9") (on_disk doc_orphan)
  = (false, on_disk doc_orphan).
Proof.
  destruct (C5_malformed_document_is_left_untouched unit no_text hoge A K
              (on_disk doc_orphan) [] [lit "[A]"; lit "K=5"] (lit "Z=1") []
              rewrite_init eq_refl eq_refl eq_refl)
    as (_ & _ & _ & H).
  apply H.
Defined.

(** C9 on [doc_two_sections] followed by a line terminator: the field
    appended to [[B]] comes after an empty line. *)
Lemma C9_blank_line_before_the_appended_field :
  rewrite hoge B (lit "Z") (lit "q") (doc_two_sections ++ [LF])
  = Some (text_lines ["[A]"; "X=1"; "[B]"; "Y=2"; ""; "Z=q"]%string).
Proof.
  destruct (C9_trailing_terminator_yields_an_empty_line
              hoge B (lit "Z") (lit "q") doc_two_sections
              {| found_mode := SECTION_MATCH;
                 current_section := B;
                 oss := doc_trailing_terminator |} eq_refl)
    as (_ & _ & H).
  destruct (H eq_refl) as (before & Hb & Hr).
  rewrite Hr, <- Hb. reflexivity.
Defined.


(** C7 on [doc_two_sections]: 42 written to [Z] of [[A]] is read back, as
    an [int] and as a [double].  The doubles that are whole numbers of at
    most six digits are printed as integers and read back as the same
    number: [Z] with [int_to_text] and [stol] stands for them. *)
Lemma C7_written_int_is_read_back :
  let fs := snd (write_int hoge A (lit "Z") 42 (on_disk doc_two_sections)) in
  let fs' := snd (write_double Z int_to_text hoge A (lit "Z") 42%Z
                    (on_disk doc_two_sections)) in
  read_int hoge A (lit "Z") 0 fs = (42%Z, fs)
  /\ read_double Z stol hoge A (lit "Z") 0%Z fs' = (42%Z, fs').
Proof.
  assert (Hh : readable_header hoge A).
  { repeat split; try reflexivity; vm_compute; intuition discriminate. }
  assert (Ha : readable_assignment hoge (lit "Z") (int_to_text 42)).
  { repeat split; try reflexivity; vm_compute; intuition discriminate. }
  destruct (C7_write_then_read_returns_the_value Z int_to_text hoge A
              (lit "Z") stol (on_disk doc_two_sections) Hh)
    as (_ & Hint & Hdouble & _).
  split.
  - apply Hint; [vm_compute; split; discriminate | exact Ha | reflexivity].
  - apply Hdouble; [reflexivity | exact Ha | reflexivity].
Defined.


(** The frame on [doc_same_field]: whatever a write of [K] in [[A]] stores,
    the [K=2] of [[B]] is a line of it; and what the write stores is the
    document with [K=1] replaced. *)
Example field_of_another_section_is_kept :
  (forall out,
     frame trim hoge A K (lit "5") doc_same_field out ->
     In (lit "K=2") (split_lines out))
  /\ rewrite hoge A K (lit "5") doc_same_field
     = Some (text_lines ["[A]"; "K=5"; "[B]"; "K=2"]%string).
Proof.
  split; [|reflexivity]. intros out Hframe.
  refine (frame_keeps_line hoge A K trim (lit "5") doc_same_field out
            [lit "[A]"; lit "K=1"; lit "[B]"] (lit "K=2") [] Hframe
            _ _ _ _ _ _).
  - exact trim_one_line.
  - vm_compute. intuition discriminate.
  - vm_compute. intuition discriminate.
  - vm_compute. intuition discriminate.
  - reflexivity.
  - intros (Hs & _). vm_compute in Hs. discriminate.
Qed.

(** C7 as stated fails for a text that begins with a blank: the write
    succeeds, and the read returns the text without the blank.  It fails
    as well for the empty text and for a section name with a closing
    bracket, which are read as the default; for a text of two lines, of
    which the first is read; and for a field name that begins with a blank,
    which is read as the default. *)
Lemma C7_padded_text_is_not_read_back :
  let fs := snd (write_str hoge A K (lit " x") (on_disk doc_two_sections)) in
  fst (write_str hoge A K (lit " x") (on_disk doc_two_sections)) = true
  /\ lit "d" <> lit " x"
  /\ fst (read_str hoge A K (lit "d") fs) = lit "x"
  /\ fst (read_str hoge A K (lit "d") fs) <> lit " x"
  /\ write_then_read_str hoge A K [] (lit "d") (on_disk doc_two_sections)
     = (true, lit "d")
  /\ write_then_read_str hoge (lit "A]") K (lit "v") (lit "d")
       (on_disk doc_two_sections)
     = (true, lit "d")
  /\ write_then_read_str hoge A K (text_lines ["a"; "b"]%string) (lit "d")
       (on_disk doc_two_sections)
     = (true, lit "a")
  /\ write_then_read_str hoge A (lit " K") (lit "v") (lit "d")
       (on_disk doc_two_sections)
     = (true, lit "d").
Proof.
  vm_compute. repeat split; discriminate.
Qed.

(** C3: the code at the failing input.  After [K=1] the mode is
    [BOTH_MATCH]; the second [[A]] puts it back to [SECTION_MATCH]; and the
    stored text holds the new assignment twice. *)
Lemma C3_reopened_section_resets_the_mode :
  mode_after hoge A K (lit "5") [lit "[A]"; lit "K=1"] = Some BOTH_MATCH
  /\ mode_after hoge A K (lit "5") [lit "[A]"; lit "K=1"; lit "[A]"]
     = Some SECTION_MATCH
  /\ rewrite hoge A K (lit "5") doc_reopened
     = Some (text_lines ["[A]"; "K=5"; "[A]"; "X=2"; "K=5"]%string).
Proof. repeat split; reflexivity. Qed.

(** C6: the code at the failing input.  The field [Z] is in no section [A];
    the write puts it before [[B]] and once more after the last line. *)
Lemma C6_reopened_section_gets_the_field_twice :
  rewrite hoge A (lit "Z") (lit "q") doc_reopened_later
  = Some (text_lines
            ["[A]"; "X=1"; "Z=q"; "[B]"; "Y=2"; "[A]"; "W=3"; "Z=q"]%string).
Proof. reflexivity. Qed.

(** The examples of the read-me and of the placement of a new field. *)

(** What [read_int] makes of some raw values: a fraction and a number
    followed by a blank are no literal of any base; an octal-shaped value is
    read in base 10; hexadecimal digits without a decimal digit in front
    pass the check and make [std::stol] throw; a hexadecimal value that
    begins with decimal digits is read as those. *)
Example integer_texts :
  is_convertable_to_long (lit "1.5") = false
  /\ is_convertable_to_long (lit "12 ") = false
  /\ (is_convertable_to_long (lit "010") = true
      /\ stol (lit "010") = Some 10%Z)
  /\ (is_convertable_to_long (lit "ff") = true /\ stol (lit "ff") = None)
  /\ (is_convertable_to_long (lit "12ab") = true
      /\ stol (lit "12ab") = Some 12%Z)
  /\ (is_convertable_to_long (lit " -7") = true
      /\ stol (lit " -7") = Some (-7)%Z).
Proof. repeat split; reflexivity. Qed.

Example insertion_placement :
  rewrite hoge A (lit "Z") (lit "q") doc_two_sections
  = Some (text_lines ["[A]"; "X=1"; "Z=q"; "[B]"; "Y=2"]%string).
Proof. reflexivity. Qed.

Example new_section_in_an_empty_file :
  rewrite hoge A K (lit "1") [] = Some (text_lines ["[A]"; "K=1"]%string).
Proof. reflexivity. Qed.

Example new_section_after_the_others :
  rewrite hoge (lit "C") K (lit "1") doc_two_sections
  = Some (text_lines ["[A]"; "X=1"; "[B]"; "Y=2"; "[C]"; "K=1"]%string).
Proof. reflexivity. Qed.

Example first_match_wins :
  fst (read_int hoge A K 0
         (on_disk (text_lines ["[A]"; "K=1"; "[A]"; "K=2"]%string))) = 1%Z.
Proof. reflexivity. Qed.

Example read_bool_ignores_case :
  fst (read_bool hoge A K false
         (on_disk (text_lines ["[A]"; "K = TruE"]%string))) = true
  /\ fst (read_bool hoge A K true
            (on_disk (text_lines ["[A]"; "K = FALSE"]%string))) = false
  /\ fst (read_bool hoge A K true
            (on_disk (text_lines ["[A]"; "K = 0"]%string))) = false.
Proof. repeat split; reflexivity. Qed.

Example missing_file_reads_as_default :
  fst (read_str hoge A K (lit "none")
         {| file_content := fun _ => None;
            can_open_for_writing := fun _ => true |}) = lit "none".
Proof. reflexivity. Qed.

(** The further properties, each on a document. *)

Ltac not_a_header_of :=
  let Hb := fresh in let Hf := fresh in let Hs := fresh in
  intros (_ & Hb & ? & Hf & _ & Hs);
  vm_compute in Hb; try discriminate Hb;
  vm_compute in Hf; inversion Hf; subst;
  vm_compute in Hs; discriminate Hs.

Ltac not_assigning :=
  let Hb := fresh in let Hp := fresh in let Hn := fresh in
  intros (? & _ & Hb & ? & Hp & Hn & _);
  vm_compute in Hb; try discriminate Hb;
  vm_compute in Hp; inversion Hp; subst;
  vm_compute in Hn; discriminate Hn.

Lemma readable_header_A : readable_header hoge A.
Proof. repeat split; try reflexivity; vm_compute; intuition discriminate. Defined.

Lemma readable_assignment_Z_q : readable_assignment hoge (lit "Z") (lit "q").
Proof. repeat split; try reflexivity; vm_compute; intuition discriminate. Defined.

(** X1 on a padded line: the first character of its trimmed form is not
    whitespace. *)
Lemma X1_padded_assignment_trimmed :
  is_whitespace "K" = false
  /\ is_whitespace (last (lit "K = 1") "K"%char) = false.
Proof.
  exact (proj2 (X1_trim_removes_the_surrounding_whitespace_only
                  (lit " K = 1 ")) "K"%char (lit " = 1") eq_refl).
Defined.

(** X3 on [doc_two_sections]: [Y] of [[B]]. *)
Lemma X3_second_section_is_read :
  read_str hoge B (lit "Y") (lit "none") (on_disk doc_two_sections)
  = (lit "2", on_disk doc_two_sections).
Proof.
  assert (Hl : assigns_value hoge (lit "Y") (lit "2") (lit "Y=2")).
  { split; [reflexivity|]. split; [reflexivity|].
    exists 1. repeat split; reflexivity. }
  apply (X3_first_match_is_returned hoge B (lit "Y") (lit "2")
           (on_disk doc_two_sections) [lit "[A]"; lit "X=1"; lit "[B]"] []
           (lit "Y=2") eq_refl eq_refl ltac:(discriminate)
           ltac:(discriminate) Hl).
Defined.

(** X4 on [doc_padded] and the same document without the padding. *)
Lemma X4_padded_document_reads_the_same :
  lookup hoge A K doc_padded
  = lookup hoge A K (text_lines ["[A]"; "; c"; "K = 1"]%string).
Proof.
  apply (X4_whitespace_around_lines_is_not_significant hoge doc_padded
           (text_lines ["[A]"; "; c"; "K = 1"]%string) eq_refl A K).
Defined.

(** X5 on a negative number. *)
Lemma X5_minus_seventeen :
  option_map long_to_int (stol (int_to_text (-17))) = Some (-17)%Z.
Proof.
  apply (X5_int_text_is_read_back (-17)).
  vm_compute. split; discriminate.
Defined.

Lemma no_header_of_C :
  Forall (fun l => ~ names_section hoge (lit "C") l)
    (getlines doc_two_sections).
Proof. repeat constructor; not_a_header_of. Defined.

(** X6 on [doc_two_sections]: there is no section [C]. *)
Lemma X6_no_section_C :
  read_int hoge (lit "C") K 5 (on_disk doc_two_sections)
  = (5%Z, on_disk doc_two_sections).
Proof.
  destruct (X6_absent_section_or_field_reads_as_default unit no_stod hoge
              (lit "C") K (on_disk doc_two_sections)
              (or_introl no_header_of_C))
    as (_ & H & _).
  apply H.
Defined.

(** X7 on a disk without any file. *)
Lemma X7_no_file_at_all :
  let fs := {| file_content := fun _ => None;
               can_open_for_writing := fun _ => true |} in
  read_str hoge A K (lit "none") fs = (lit "none", fs)
  /\ exists fs',
       set_field hoge A K (lit "1") fs = (true, fs')
       /\ text_of hoge fs' = Some (text_lines ["[A]"; "K=1"]%string).
Proof.
  intros fs.
  destruct (X7_absent_or_empty_file unit no_stod hoge A K fs (lit "1")
              eq_refl) as ((_ & _ & _ & H) & Hw).
  split; [apply H | apply Hw; reflexivity].
Defined.

(** X8 on [doc_orphan]: the file can be opened, so the document holds a
    malformed line. *)
Lemma X8_orphan_field_is_the_reason :
  can_open_for_writing (on_disk doc_orphan) (file_path_ hoge) = false
  \/ exists pre bad post st,
       getlines (loaded hoge (on_disk doc_orphan)) = pre ++ bad :: post
       /\ for_lines (set_field_body hoge A K (lit "9")) rewrite_init pre
          = Continue st
       /\ malformed_line hoge (current_section st) bad = true.
Proof.
  exact (X8_write_fails_for_two_reasons_only hoge A K (lit "9")
           (on_disk doc_orphan) (on_disk doc_orphan) eq_refl).
Defined.

(** X10 on [doc_two_sections]: section [C] is new. *)
Lemma X10_section_C_is_appended :
  text_lines ["[A]"; "X=1"; "[B]"; "Y=2"; "[C]"; "K=1"]%string
  = pop_back (emit_lines
      (map trim (getlines doc_two_sections)
       ++ [header_of (lit "C"); assignment hoge K (lit "1")])).
Proof.
  exact (X10_absent_section_is_appended hoge (lit "C") K (lit "1")
           doc_two_sections _ no_header_of_C eq_refl).
Defined.

(** X11 on [doc_two_sections]: [X] of [[A]] is there already. *)
Lemma X11_field_X_is_replaced :
  text_lines ["[A]"; "X=9"; "[B]"; "Y=2"]%string
  = pop_back (emit_lines
      (map trim [] ++ trim (lit "[A]") :: map trim []
       ++ assignment hoge (c_str (lit "X")) (lit "9")
          :: map trim [lit "[B]"; lit "Y=2"])).
Proof.
  assert (HA : names_section hoge A (lit "[A]")).
  { split; [reflexivity|]. split; [reflexivity|].
    exists 2. repeat split; reflexivity. }
  assert (Hl : assigns hoge (lit "X") (lit "X=1")).
  { exists (lit "1"). split; [reflexivity|]. split; [reflexivity|].
    exists 1. repeat split; reflexivity. }
  assert (Hpost : Forall (fun x => ~ names_section hoge A x
                                   /\ ~ assigns hoge (lit "X") x)
                    [lit "[B]"; lit "Y=2"]).
  { repeat constructor; try not_a_header_of; not_assigning. }
  exact (X11_existing_field_is_replaced_in_place hoge A (lit "X") (lit "9")
           doc_two_sections _ [] [] [lit "[B]"; lit "Y=2"] (lit "[A]")
           (lit "X=1") (Forall_nil _) HA (Forall_nil _) Hl Hpost
           eq_refl eq_refl).
Defined.

(** X12 on [doc_two_sections]: [Z=q] written twice to [[A]]. *)
Lemma X12_second_write_changes_nothing :
  let fs1 := snd (set_field hoge A (lit "Z") (lit "q")
                    (on_disk doc_two_sections)) in
  exists fs2,
    set_field hoge A (lit "Z") (lit "q") fs1 = (true, fs2)
    /\ text_of hoge fs2 = text_of hoge fs1.
Proof.
  intros fs1.
  assert (Hw : set_field hoge A (lit "Z") (lit "q")
                 (on_disk doc_two_sections) = (true, fs1))
    by reflexivity.
  exact (X12_write_is_idempotent hoge A (lit "Z") (lit "q")
           readable_header_A readable_assignment_Z_q
           (on_disk doc_two_sections) fs1 Hw).
Defined.

(** X13 on [doc_two_sections]: [Z=q] written to [[A]] leaves [Y] of [[B]]. *)
Lemma X13_field_Y_reads_as_before :
  let fs1 := snd (set_field hoge A (lit "Z") (lit "q")
                    (on_disk doc_two_sections)) in
  lookup hoge B (lit "Y") (loaded hoge fs1)
  = lookup hoge B (lit "Y") (loaded hoge (on_disk doc_two_sections)).
Proof.
  intros fs1.
  assert (Hw : set_field hoge A (lit "Z") (lit "q")
                 (on_disk doc_two_sections) = (true, fs1))
    by reflexivity.
  assert (Ho : B <> A) by discriminate.
  destruct (X13_write_keeps_what_other_targets_read hoge A (lit "Z")
              (lit "q") readable_header_A readable_assignment_Z_q
              B (lit "Y") (or_introl Ho)
              (on_disk doc_two_sections) fs1 Hw) as [H _].
  exact H.
Defined.

(** The placement of a new field, on [doc_two_sections]: [Z=q] goes before
    [[B]]. *)
Lemma new_field_Z_goes_before_B :
  text_lines ["[A]"; "X=1"; "Z=q"; "[B]"; "Y=2"]%string
  = pop_back (emit_lines
      (map trim [] ++ trim (lit "[A]") :: map trim [lit "X=1"]
       ++ assignment hoge (lit "Z") (lit "q")
          :: trim (lit "[B]") :: map trim [lit "Y=2"])).
Proof.
  assert (HA : names_section hoge A (lit "[A]")).
  { split; [reflexivity|]. split; [reflexivity|].
    exists 2. repeat split; reflexivity. }
  assert (HB : names_section hoge B (lit "[B]")).
  { split; [reflexivity|]. split; [reflexivity|].
    exists 2. repeat split; reflexivity. }
  assert (Hinner : Forall (section_line hoge (lit "Z")) [lit "X=1"]).
  { constructor; [|constructor]. right. exists (lit "X").
    split; [discriminate|]. exists (lit "1").
    split; [reflexivity|]. split; [reflexivity|].
    exists 1. repeat split; reflexivity. }
  assert (Hrest : Forall (fun l => ~ names_section hoge A l) [lit "Y=2"]).
  { repeat constructor. not_a_header_of. }
  exact (proj1 (new_field_goes_to_the_end_of_its_section hoge A (lit "Z")
                  (lit "q") doc_two_sections _ [] [lit "X=1"] [lit "Y=2"]
                  (lit "[A]") (lit "[B]") B (Forall_nil _) HA Hinner HB
                  ltac:(discriminate) Hrest eq_refl) eq_refl).
Defined.

(** X15 on [doc_two_sections]: [Z=q] written to [[A]], then [W=r] to
    [[B]]. *)
Lemma X15_both_fields_are_read :
  let fs1 := snd (set_field hoge A (lit "Z") (lit "q")
                    (on_disk doc_two_sections)) in
  let fs2 := snd (set_field hoge B (lit "W") (lit "r") fs1) in
  lookup hoge A (lit "Z") (loaded hoge fs2) = Some (lit "q")
  /\ lookup hoge B (lit "W") (loaded hoge fs2) = Some (lit "r").
Proof.
  intros fs1 fs2.
  assert (Hh : readable_header hoge B).
  { repeat split; try reflexivity; vm_compute; intuition discriminate. }
  assert (Ha : readable_assignment hoge (lit "W") (lit "r")).
  { repeat split; try reflexivity; vm_compute; intuition discriminate. }
  assert (Hne : A <> B) by discriminate.
  assert (Hw1 : set_field hoge A (lit "Z") (lit "q")
                  (on_disk doc_two_sections) = (true, fs1))
    by reflexivity.
  assert (Hw2 : set_field hoge B (lit "W") (lit "r") fs1 = (true, fs2))
    by reflexivity.
  exact (X15_two_writes_are_both_read_back hoge A (lit "Z") (lit "q")
           B (lit "W") (lit "r") (on_disk doc_two_sections) fs1 fs2
           readable_header_A readable_assignment_Z_q Hh Ha
           (or_introl Hne) Hw1 Hw2).
Defined.

End WorkedDocuments.

